(** * A shallow embedding of the toolkit dispatch engine

    The development follows [toolkit/toolkit.go] and [toolkit/types.go]:
    the request and response trees, the structured error, the registry
    built by [New], the manifest printer [GetToolkitDescription] and the
    request entry point [HandleToolKit] with its loop [processToolKit].

    Go maps are stdpp [gmap]s keyed by [string]; slices are lists;
    [interface{}] is the sum type [any]; an [error] is either a
    [ToolKitError] or some other error known by its message.  Code that
    logs or calls handlers runs in a state monad over the log and the
    world the handlers act on. *)

From stdpp Require Import gmap strings.

Open Scope string_scope.
Open Scope list_scope.

(** ** Wire types ([toolkit/types.go]) *)

(** [json.RawMessage]: undecoded bytes of a JSON document. *)
Definition RawMessage := string.

Record ToolKitChild := {
  ToolKitChild_Name : string;
  ToolKitChild_Args : RawMessage
}.

Record ToolKitParent := {
  ToolKitParent_Name : string;
  ToolKitParent_ToolKitChilds : list ToolKitChild
}.

Record ToolKit := {
  ToolKit_Name : string;
  ToolKit_ToolKitParents : list ToolKitParent
}.

(** ** Errors *)

Record ToolKitError := {
  Code : string;
  Message : string
}.

(** A Go [error] value: the dynamic type is [ToolKitError], or it is any
    other error ([errors.New], [fmt.Errorf], a JSON decoding error), of which
    the engine only ever reads the message. *)
Inductive error :=
| error_ToolKitError (e : ToolKitError)
| error_other (msg : string).

Definition ToolKitError_Error (e : ToolKitError) : string :=
  Code e +:+ ": " +:+ Message e.

Definition error_Error (e : error) : string :=
  match e with
  | error_ToolKitError e => ToolKitError_Error e
  | error_other msg => msg
  end.

Definition NewError (code message : string) : error :=
  error_ToolKitError {| Code := code; Message := message |}.

(** [fmt.Errorf(prefix + "%w", err)]. *)
Definition fmt_Errorf_w (prefix : string) (err : error) : error :=
  error_other (prefix +:+ error_Error err).

(** ** Argument shapes and schema documents

    A Go struct type used as tool arguments, as reflection sees it: its
    fields with their [json] name and their [jsonschema] tag. *)

Record Field := {
  field_json_name : string;
  field_type : string;
  field_tag_required : bool;
  field_tag_description : string;
  field_omitempty : bool
}.

Record Property := {
  Property_Type : string;
  Property_Description : string
}.

(** The part of [jsonschema.Schema] the reflector fills for a struct. *)
Record Schema := {
  Schema_Type : string;
  Schema_Properties : list (string * Property);
  Schema_Required : list string;
  Schema_AdditionalProperties : option bool
}.

Record Reflector := {
  AllowAdditionalProperties : bool;
  DoNotReference : bool;
  RequiredFromJSONSchemaTags : bool
}.

(** [jsonschema.Reflector.Reflect] of the library [invopop/jsonschema] on a
    struct, by the documented meaning of its options: one property per
    field, in field order.  With [RequiredFromJSONSchemaTags] a field is
    required exactly when its [jsonschema] tag says so; without it every
    field that is not [omitempty] is required as well.  Without
    [AllowAdditionalProperties] the document forbids further properties. *)
Definition Reflector_Reflect (r : Reflector) (fields : list Field) : Schema :=
  {| Schema_Type := "object";
     Schema_Properties :=
       map (fun f => (field_json_name f,
                      {| Property_Type := field_type f;
                         Property_Description := field_tag_description f |}))
           fields;
     Schema_Required :=
       map field_json_name
           (List.filter (fun f => if RequiredFromJSONSchemaTags r
                                  then field_tag_required f
                                  else negb (field_omitempty f) || field_tag_required f)
                        fields);
     Schema_AdditionalProperties :=
       if AllowAdditionalProperties r then None else Some false |}.

(** What the engine needs of a type [T] used as tool arguments: its fields
    (reflection) and [json.Unmarshal] into it. *)
Class ArgShape (T : Type) := {
  shape_fields : list Field;
  shape_Unmarshal : RawMessage -> T + error
}.

Definition GenerateSchema_of (fields : list Field) : Schema :=
  let reflector := {| AllowAdditionalProperties := true;
                      DoNotReference := true;
                      RequiredFromJSONSchemaTags := true |} in
  Reflector_Reflect reflector fields.

(** ** The environment of the engine *)

(** The types the engine is generic in. *)
Class Runtime := {
  (** [context.Context] *)
  context_Context : Type;
  (** whatever handlers read and write outside the engine *)
  World : Type;
  (** values handlers return on success *)
  Value : Type
}.

Section Model.
Context `{RT : Runtime}.

(** [interface{}] as the engine uses it. *)
Inductive any :=
| any_nil
| any_error (e : error)
| any_Schema (s : Schema)
| any_value (v : Value).

Definition GenerateSchema (T : Type) `{ArgShape T} : any :=
  any_Schema (GenerateSchema_of (shape_fields (T := T))).

(** [encoding/json] at the two types the engine uses it at. *)
Class EncodingJSON := {
  json_Unmarshal_ToolKit : RawMessage -> ToolKit + error;
  json_Marshal : any -> string + error
}.

(** ** Response tree *)

Record ChildResponse := {
  ChildResponse_Name : string;
  ChildResponse_Response : any
}.

Record ParentResponse := {
  ParentResponse_Name : string;
  ParentResponse_ChildsResponses : list ChildResponse
}.

Record ToolKitResponse := {
  ToolKitResponse_Name : string;
  ToolKitResponse_Responses : list ParentResponse
}.

Definition ToolKitResponse_AddResponse (tr : ToolKitResponse) (pr : ParentResponse)
  : ToolKitResponse :=
  {| ToolKitResponse_Name := ToolKitResponse_Name tr;
     ToolKitResponse_Responses := ToolKitResponse_Responses tr ++ [pr] |}.

Definition ParentResponse_AddResponse (pr : ParentResponse) (cr : ChildResponse)
  : ParentResponse :=
  {| ParentResponse_Name := ParentResponse_Name pr;
     ParentResponse_ChildsResponses := ParentResponse_ChildsResponses pr ++ [cr] |}.

(** ** Effects: the log and the world *)

Record Sys := {
  sys_log : list string;
  sys_world : World
}.

Definition M (A : Type) : Type := Sys -> A * Sys.

Definition ret {A} (a : A) : M A := fun s => (a, s).

Definition bind {A B} (m : M A) (k : A -> M B) : M B :=
  fun s => let (a, s') := m s in k a s'.

(** [log.Println] and [log.Printf], without the time stamp. *)
Definition log_Print (line : string) : M unit :=
  fun s => (tt, {| sys_log := sys_log s ++ [line]; sys_world := sys_world s |}).

(** A [for _, x := range l] loop whose body updates the loop-carried
    variables [acc]. *)
Fixpoint for_range {A B} (body : B -> A -> M B) (l : list A) (acc : B) : M B :=
  match l with
  | [] => ret acc
  | x :: rest => bind (body acc x) (for_range body rest)
  end.

End Model.

Notation "'let*' x ':=' m 'in' k" := (bind m (fun x => k))
  (at level 10, x pattern, m at level 200, k at level 200).
Notation "m ';;' k" := (bind m (fun _ => k))
  (at level 100, k at level 200, right associativity).

Section Engine.
Context `{RT : Runtime} `{JS : !EncodingJSON}.

(** ** Interfaces ([Child] and [Parent]) *)

Record Child := {
  Child_GetName : string;
  Child_GetDescription : string;
  Child_GetInputSchema : any;
  Child_Handle : context_Context -> RawMessage -> M (any * option error)
}.

Record Parent := {
  Parent_GetName : string;
  Parent_GetDescription : string;
  Parent_GetChildren : gmap string Child;
  Parent_HandleChildren : context_Context -> list ToolKitChild -> M ParentResponse
}.

(** ** The registry ([toolkit/toolkit.go]) *)

Record Toolkit := {
  Toolkit_parents : gmap string Parent;
  Toolkit_name : string
}.

Definition warn_nil_parent : string :=
  "Warning: nil parent provided to toolkit.New, skipping.".

Definition warn_duplicate_parent (n : string) : string :=
  "Warning: Duplicate parent name '" +:+ n +:+ "' detected in toolkit.New. Overwriting.".

(** One turn of the loop of [New]; a nil interface value is [None]. *)
Definition New_body (parentMap : gmap string Parent) (p : option Parent)
  : M (gmap string Parent) :=
  match p with
  | None => log_Print warn_nil_parent ;; ret parentMap
  | Some p =>
      (match parentMap !! Parent_GetName p with
       | Some _ => log_Print (warn_duplicate_parent (Parent_GetName p))
       | None => ret tt
       end) ;;
      ret (<[Parent_GetName p := p]> parentMap)
  end.

Definition New (name : string) (parents : list (option Parent)) : M Toolkit :=
  let* parentMap := for_range New_body parents ∅ in
  ret {| Toolkit_parents := parentMap; Toolkit_name := name |}.

Definition GetToolkitName (t : Toolkit) : string := Toolkit_name t.

(** ** The manifest

    The order in which [range] visits a Go map is unspecified, and differs
    from one run of the loop to the next.  A [RangeOrder] fixes, for one
    call, the order of every [range] the call executes: the one over the
    registry and, per parent, the one over its children. *)

Record RangeOrder := {
  range_parents : gmap string Parent -> list (string * Parent);
  range_children : Parent -> gmap string Child -> list (string * Child)
}.

(** What Go guarantees of a [range] over a map: every entry, once. *)
Definition RangeOrder_ok (o : RangeOrder) : Prop :=
  (forall m, range_parents o m ≡ₚ map_to_list m) /\
  (forall p m, range_children o p m ≡ₚ map_to_list m).

Definition dq : string := String (Ascii.ascii_of_nat 34) EmptyString.
Definition nl : string := String (Ascii.ascii_of_nat 10) EmptyString.

Definition toolkit_line (n : string) : string :=
  "In this environment, you have access to the following <toolkit name=" +:+ dq +:+ n
    +:+ dq +:+ ">:" +:+ nl.

Definition parent_line (n d : string) : string :=
  "<parent name=" +:+ dq +:+ n +:+ dq +:+ " description=" +:+ dq +:+ d +:+ dq
    +:+ "></parent>" +:+ nl.

Definition child_line (n d schemaStr : string) : string :=
  "<child name=" +:+ dq +:+ n +:+ dq +:+ " description=" +:+ dq +:+ d +:+ dq
    +:+ "><input_schema>" +:+ schemaStr +:+ "</input_schema></child>" +:+ nl.

Definition note_line : string :=
  "**NOTE**: A child tool cannot be invoked directly, the parent tool must be invoked first via its parent."
    +:+ nl.

(** The body of the inner loop; [sb] is the string builder. *)
Definition GetToolkitDescription_child (parent : Parent) (sb : string)
    (entry : string * Child) : M string :=
  let child := snd entry in
  let schema := Child_GetInputSchema child in
  match json_Marshal schema with
  | inl schemaBytes =>
      ret (sb +:+ child_line (Child_GetName child) (Child_GetDescription child) schemaBytes)
  | inr err =>
      log_Print ("Error marshaling schema for " +:+ Parent_GetName parent +:+ "."
                   +:+ Child_GetName child +:+ ": " +:+ error_Error err) ;;
      ret (sb +:+ child_line (Child_GetName child) (Child_GetDescription child) "schema_error")
  end.

(** The body of the outer loop. *)
Definition GetToolkitDescription_parent (o : RangeOrder) (sb : string)
    (entry : string * Parent) : M string :=
  let parent := snd entry in
  let sb := sb +:+ parent_line (Parent_GetName parent) (Parent_GetDescription parent) in
  let children := Parent_GetChildren parent in
  let* sb :=
    (if Nat.ltb 0 (size children) then
       let* sb := for_range (GetToolkitDescription_child parent)
                            (range_children o parent children) sb in
       ret (sb +:+ "</parent>" +:+ nl)
     else
       ret (sb +:+ "</parent>" +:+ nl)) in
  ret (sb +:+ note_line).

Definition GetToolkitDescription (o : RangeOrder) (t : Toolkit) : M string :=
  let sb := "" in
  let sb := sb +:+ toolkit_line (Toolkit_name t) in
  let sb := sb +:+ "A <toolkit> is a collection of <parents>, a <parent> is a collection of <childs>."
               +:+ nl in
  let sb := sb +:+ "Below is the list of available <parents> and their <childs>:" +:+ nl in
  let* sb := for_range (GetToolkitDescription_parent o)
                       (range_parents o (Toolkit_parents t)) sb in
  ret (sb +:+ "</toolkit>").

(** ** Request processing *)

Definition parseToolKitInput (input : RawMessage) : ToolKit + error :=
  match json_Unmarshal_ToolKit input with
  | inl toolkitRequest => inl toolkitRequest
  | inr err => inr (fmt_Errorf_w "error unmarshaling toolkit JSON input: " err)
  end.

Definition parent_not_found_response (parentReq : ToolKitParent) : ParentResponse :=
  {| ParentResponse_Name := ToolKitParent_Name parentReq;
     ParentResponse_ChildsResponses :=
       [ {| ChildResponse_Name := "_parent_error";
            ChildResponse_Response :=
              any_error (NewError "parent_not_found"
                ("Parent toolkit '" +:+ ToolKitParent_Name parentReq +:+ "' not registered")) |} ] |}.

(** One turn of the loop of [processToolKit]. *)
Definition processToolKit_body (t : Toolkit) (ctx : context_Context)
    (tlResponse : ToolKitResponse) (parentReq : ToolKitParent) : M ToolKitResponse :=
  match Toolkit_parents t !! ToolKitParent_Name parentReq with
  | None =>
      log_Print ("Toolkit: Requested parent '" +:+ ToolKitParent_Name parentReq +:+ "' not found") ;;
      ret (ToolKitResponse_AddResponse tlResponse (parent_not_found_response parentReq))
  | Some parent =>
      let* parentResponse :=
        Parent_HandleChildren parent ctx (ToolKitParent_ToolKitChilds parentReq) in
      ret (ToolKitResponse_AddResponse tlResponse parentResponse)
  end.

Definition processToolKit (t : Toolkit) (ctx : context_Context) (toolkitRequest : ToolKit)
  : M (ToolKitResponse * option error) :=
  let tlResponse := {| ToolKitResponse_Name := GetToolkitName t;
                       ToolKitResponse_Responses := [] |} in
  if Nat.eqb (length (ToolKit_ToolKitParents toolkitRequest)) 0 then
    ret (tlResponse,
         Some (NewError "no_toolkit_parents" "No toolkit parents specified in the request"))
  else
    let* tlResponse' :=
      for_range (processToolKit_body t ctx) (ToolKit_ToolKitParents toolkitRequest)
                tlResponse in
    ret (tlResponse', None).

Definition parse_error_response (err : error) : ToolKitResponse :=
  {| ToolKitResponse_Name := "toolkit_request_parse_error";
     ToolKitResponse_Responses :=
       [ {| ParentResponse_Name := "_parse_error";
            ParentResponse_ChildsResponses :=
              [ {| ChildResponse_Name := "_input_error";
                   ChildResponse_Response :=
                     any_error (NewError "invalid_input_json" (error_Error err)) |} ] |} ] |}.

Definition HandleToolKit (t : Toolkit) (ctx : context_Context) (input : RawMessage)
  : M (ToolKitResponse * option error) :=
  match parseToolKitInput input with
  | inr err =>
      log_Print ("Error parsing toolkit input: " +:+ error_Error err) ;;
      ret (parse_error_response err, Some err)
  | inl tkRequest => processToolKit t ctx tkRequest
  end.

End Engine.

(** ** The builders

    [toolkit/builder.go] ([NewChild], [NewParent] and the [Handle] and
    [HandleChildren] methods of the values they build) is not among the
    source files; the tests in [toolkit/tests] call it. *)

Section Builder.
Context `{RT : Runtime} `{JS : !EncodingJSON}.

(** Modelled from the spec: [Handle] of a child built by [NewChild], which
    is missing from the sources.  The arguments are decoded into the typed
    shape; a decoding failure fails with [invalid_arguments] and its
    diagnostic, before the handler is reached; a handler failure is wrapped
    as [handler_execution_error] with the message of the original error; a
    handler result is returned as it is. *)
Definition NewChild_Handle {T} `{ArgShape T}
    (handler : context_Context -> T -> M (any * option error))
    (ctx : context_Context) (args : RawMessage) : M (any * option error) :=
  match shape_Unmarshal args with
  | inr err => ret (any_nil, Some (NewError "invalid_arguments" (error_Error err)))
  | inl typedArgs =>
      let* (result, err) := handler ctx typedArgs in
      match err with
      | Some e => ret (any_nil, Some (NewError "handler_execution_error" (error_Error e)))
      | None => ret (result, None)
      end
  end.

(** Modelled from the spec: [NewChild], missing from the sources.  It binds
    the name, the description and the handler, and generates the schema of
    the argument shape once. *)
Definition NewChild {T} `{ArgShape T} (name description : string)
    (handler : context_Context -> T -> M (any * option error)) : Child :=
  {| Child_GetName := name;
     Child_GetDescription := description;
     Child_GetInputSchema := GenerateSchema T;
     Child_Handle := NewChild_Handle handler |}.

(** Modelled from the spec: the entry of a requested tool the parent does
    not hold, built in [HandleChildren] of the missing [builder.go]: the
    requested name with a [child_not_found] error.  The spec does not fix
    the message. *)
Definition child_not_found_response (parentName : string) (req : ToolKitChild)
  : ChildResponse :=
  {| ChildResponse_Name := ToolKitChild_Name req;
     ChildResponse_Response :=
       any_error (NewError "child_not_found"
         ("Child tool '" +:+ ToolKitChild_Name req +:+ "' not found in parent '"
            +:+ parentName +:+ "'")) |}.

(** Modelled from the spec: one turn of the dispatch loop of a parent built
    by [NewParent], missing from the sources.  The tool is looked up by the
    requested name; an unknown name yields a [child_not_found] entry, a known
    one the result of the tool or its failure, under the requested name. *)
Definition HandleChildren_body (name : string) (children : gmap string Child)
    (ctx : context_Context) (parentResponse : ParentResponse) (req : ToolKitChild)
  : M ParentResponse :=
  match children !! ToolKitChild_Name req with
  | None =>
      ret (ParentResponse_AddResponse parentResponse (child_not_found_response name req))
  | Some child =>
      let* (result, err) := Child_Handle child ctx (ToolKitChild_Args req) in
      match err with
      | Some e =>
          ret (ParentResponse_AddResponse parentResponse
                 {| ChildResponse_Name := ToolKitChild_Name req;
                    ChildResponse_Response := any_error e |})
      | None =>
          ret (ParentResponse_AddResponse parentResponse
                 {| ChildResponse_Name := ToolKitChild_Name req;
                    ChildResponse_Response := result |})
      end
  end.

(** Modelled from the spec: [HandleChildren] of a parent built by
    [NewParent]: every requested tool, in request order. *)
Definition HandleChildren (name : string) (children : gmap string Child)
    (ctx : context_Context) (childRequests : list ToolKitChild) : M ParentResponse :=
  for_range (HandleChildren_body name children ctx) childRequests
            {| ParentResponse_Name := name; ParentResponse_ChildsResponses := [] |}.

(** Modelled from the spec: the diagnostics of [NewParent], missing from
    the sources; the spec asks for a diagnostic and does not fix its text. *)
Definition warn_nil_child : string :=
  "Warning: nil child provided to toolkit.NewParent, skipping.".

Definition warn_duplicate_child (n : string) : string :=
  "Warning: Duplicate child name '" +:+ n +:+ "' detected in toolkit.NewParent. Overwriting.".

(** Modelled from the spec: registration of one child by [NewParent], under
    the rule of [New]: an absent entry is skipped with a diagnostic, a name
    already taken is overwritten. *)
Definition NewParent_body (childMap : gmap string Child) (c : option Child)
  : M (gmap string Child) :=
  match c with
  | None => log_Print warn_nil_child ;; ret childMap
  | Some c =>
      (match childMap !! Child_GetName c with
       | Some _ => log_Print (warn_duplicate_child (Child_GetName c))
       | None => ret tt
       end) ;;
      ret (<[Child_GetName c := c]> childMap)
  end.

(** Modelled from the spec: [NewParent], missing from the sources. *)
Definition NewParent (name description : string) (children : list (option Child))
  : M Parent :=
  let* childMap := for_range NewParent_body children ∅ in
  ret {| Parent_GetName := name;
         Parent_GetDescription := description;
         Parent_GetChildren := childMap;
         Parent_HandleChildren := HandleChildren name childMap |}.

End Builder.

(** ** The manifest, read as a document

    The text [GetToolkitDescription] prints is a list of parent blocks, each
    with the child entries printed under it.  [manifest_blocks] is that
    document and [render_manifest] its text; [GetToolkitDescription_render]
    below shows that the printer prints exactly this. *)

Section Manifest.
Context `{RT : Runtime} `{JS : !EncodingJSON}.

Record ChildBlock := {
  cb_name : string;
  cb_description : string;
  cb_schema : string
}.

Record ParentBlock := {
  pb_name : string;
  pb_description : string;
  pb_children : list ChildBlock
}.

Definition schema_text (schema : any) : string :=
  match json_Marshal schema with
  | inl schemaBytes => schemaBytes
  | inr _ => "schema_error"
  end.

Definition child_block (entry : string * Child) : ChildBlock :=
  {| cb_name := Child_GetName (snd entry);
     cb_description := Child_GetDescription (snd entry);
     cb_schema := schema_text (Child_GetInputSchema (snd entry)) |}.

Definition parent_block (o : RangeOrder) (entry : string * Parent) : ParentBlock :=
  {| pb_name := Parent_GetName (snd entry);
     pb_description := Parent_GetDescription (snd entry);
     pb_children :=
       child_block <$> range_children o (snd entry) (Parent_GetChildren (snd entry)) |}.

Definition manifest_blocks (o : RangeOrder) (t : Toolkit) : list ParentBlock :=
  parent_block o <$> range_parents o (Toolkit_parents t).

Definition render_child (sb : string) (b : ChildBlock) : string :=
  sb +:+ child_line (cb_name b) (cb_description b) (cb_schema b).

Definition render_parent (sb : string) (b : ParentBlock) : string :=
  foldl render_child (sb +:+ parent_line (pb_name b) (pb_description b)) (pb_children b)
    +:+ "</parent>" +:+ nl +:+ note_line.

Definition render_manifest (name : string) (blocks : list ParentBlock) : string :=
  foldl render_parent
    ("" +:+ toolkit_line name
        +:+ "A <toolkit> is a collection of <parents>, a <parent> is a collection of <childs>."
        +:+ nl
        +:+ "Below is the list of available <parents> and their <childs>:" +:+ nl)
    blocks
    +:+ "</toolkit>".

(** The names under which a registry holds its parents, and a parent its
    children. *)
Definition registered_parents (t : Toolkit) : list string :=
  (map_to_list (Toolkit_parents t)).*1.

Definition registered_children (p : Parent) : list string :=
  (map_to_list (Parent_GetChildren p)).*1.

(** A registry as [New] builds it from parents as [NewParent] builds them:
    every entry sits under its own name. *)
Definition Parent_keyed (p : Parent) : Prop :=
  map_Forall (fun k c => Child_GetName c = k) (Parent_GetChildren p).

Definition Toolkit_keyed (t : Toolkit) : Prop :=
  map_Forall (fun k p => Parent_GetName p = k /\ Parent_keyed p) (Toolkit_parents t).

(** A parent that dispatches as the ones [NewParent] builds do. *)
Definition Parent_dispatches (p : Parent) : Prop :=
  Parent_HandleChildren p = HandleChildren (Parent_GetName p) (Parent_GetChildren p).

Definition Toolkit_built (t : Toolkit) : Prop :=
  map_Forall (fun k p => Parent_GetName p = k /\ Parent_dispatches p) (Toolkit_parents t).

(** Names in ascending order. *)
Fixpoint names_sorted (l : list string) : bool :=
  match l with
  | [] => true
  | x :: rest =>
      match rest with
      | [] => true
      | y :: _ => String.leb x y && names_sorted rest
      end
  end.

End Manifest.

(** ** Vocabulary of the properties *)

Section Vocabulary.
Context `{RT : Runtime} `{JS : !EncodingJSON}.

(** The request cut after its first [j] categories. *)
Definition ToolKit_take (j : nat) (req : ToolKit) : ToolKit :=
  {| ToolKit_Name := ToolKit_Name req;
     ToolKit_ToolKitParents := take j (ToolKit_ToolKitParents req) |}.

(** The entry one category request contributes when it is reached in
    state [s]. *)
Definition parent_entry (t : Toolkit) (ctx : context_Context)
    (parentReq : ToolKitParent) (s : Sys) : ParentResponse :=
  match Toolkit_parents t !! ToolKitParent_Name parentReq with
  | None => parent_not_found_response parentReq
  | Some parent =>
      (Parent_HandleChildren parent ctx (ToolKitParent_ToolKitChilds parentReq) s).1
  end.

(** The entry one tool request contributes when it is reached in state [s]. *)
Definition child_entry (name : string) (children : gmap string Child)
    (ctx : context_Context) (req : ToolKitChild) (s : Sys) : ChildResponse :=
  match children !! ToolKitChild_Name req with
  | None => child_not_found_response name req
  | Some child =>
      {| ChildResponse_Name := ToolKitChild_Name req;
         ChildResponse_Response :=
           match (Child_Handle child ctx (ToolKitChild_Args req) s).1.2 with
           | Some e => any_error e
           | None => (Child_Handle child ctx (ToolKitChild_Args req) s).1.1
           end |}
  end.

(** What one turn of the loop of [New] writes to the log. *)
Definition New_body_lines (parentMap : gmap string Parent) (p : option Parent)
  : list string :=
  match p with
  | None => [warn_nil_parent]
  | Some p =>
      match parentMap !! Parent_GetName p with
      | Some _ => [warn_duplicate_parent (Parent_GetName p)]
      | None => []
      end
  end.

(** The names of a response tree and of a request tree, level by level. *)
Definition response_shape (resp : ToolKitResponse) : list (string * list string) :=
  (fun pr => (ParentResponse_Name pr,
              ChildResponse_Name <$> ParentResponse_ChildsResponses pr))
    <$> ToolKitResponse_Responses resp.

Definition request_shape (req : ToolKit) : list (string * list string) :=
  (fun pr => (ToolKitParent_Name pr,
              ToolKitChild_Name <$> ToolKitParent_ToolKitChilds pr))
    <$> ToolKit_ToolKitParents req.

(** The request tree, with the tools of every category the registry does
    not know replaced by the one slot [_parent_error]. *)
Definition mirrored_shape (t : Toolkit) (req : ToolKit) : list (string * list string) :=
  (fun pr => (ToolKitParent_Name pr,
              match Toolkit_parents t !! ToolKitParent_Name pr with
              | Some _ => ToolKitChild_Name <$> ToolKitParent_ToolKitChilds pr
              | None => ["_parent_error"]
              end))
    <$> ToolKit_ToolKitParents req.

End Vocabulary.

(** * A concrete instance

    Handlers that record their calls in the world, the argument type of the
    tests, and the part of [encoding/json] these need. *)

Definition demo_Runtime : Runtime :=
  {| context_Context := unit; World := list string; Value := string |}.

Section Demo.
#[local] Existing Instance demo_Runtime.

(** Compact JSON text of a request, as a client would send it. *)
Definition json_string (s : string) : string := dq +:+ s +:+ dq.

Definition json_member (k v : string) : string := json_string k +:+ ":" +:+ v.

Fixpoint json_join (items : list string) : string :=
  match items with
  | [] => ""
  | [x] => x
  | x :: rest => x +:+ "," +:+ json_join rest
  end.

Definition json_array (items : list string) : string := "[" +:+ json_join items +:+ "]".
Definition json_object (members : list string) : string := "{" +:+ json_join members +:+ "}".

Definition ToolKitChild_json (c : ToolKitChild) : string :=
  json_object [json_member "name" (json_string (ToolKitChild_Name c));
               json_member "args" (ToolKitChild_Args c)].

Definition ToolKitParent_json (p : ToolKitParent) : string :=
  json_object [json_member "name" (json_string (ToolKitParent_Name p));
               json_member "childs"
                 (json_array (ToolKitChild_json <$> ToolKitParent_ToolKitChilds p))].

Definition ToolKit_json (r : ToolKit) : string :=
  json_object [json_member "name" (json_string (ToolKit_Name r));
               json_member "parents"
                 (json_array (ToolKitParent_json <$> ToolKit_ToolKitParents r))].

Definition Schema_json (s : Schema) : string :=
  json_object
    [json_member "properties"
       (json_object ((fun kp => json_member kp.1
                        (json_object [json_member "type" (json_string (Property_Type kp.2))]))
                       <$> Schema_Properties s));
     json_member "type" (json_string (Schema_Type s));
     json_member "required" (json_array (json_string <$> Schema_Required s))].

(** The argument type of the tests: [testArgs], one string field [val]. *)
Record testArgs := { Val : string }.

Fixpoint strip_prefix (p s : string) : option string :=
  match p with
  | EmptyString => Some s
  | String a p' =>
      match s with
      | String b s' => if Ascii.eqb a b then strip_prefix p' s' else None
      | EmptyString => None
      end
  end.

Fixpoint until_quote (s : string) : option (string * string) :=
  match s with
  | EmptyString => None
  | String c s' =>
      if Ascii.eqb c (Ascii.ascii_of_nat 34) then Some (EmptyString, s')
      else match until_quote s' with
           | Some (v, rest) => Some (String c v, rest)
           | None => None
           end
  end.

(** Decodes an object with the one member [val], holding a string. *)
Definition testArgs_Unmarshal (raw : RawMessage) : testArgs + error :=
  match strip_prefix ("{" +:+ json_string "val" +:+ ":") raw with
  | None => inr (error_other "unexpected end of JSON input")
  | Some rest =>
      match strip_prefix dq rest with
      | None =>
          inr (error_other
                 "json: cannot unmarshal number into Go struct field testArgs.val of type string")
      | Some rest =>
          match until_quote rest with
          | Some (v, "}") => inl {| Val := v |}
          | _ => inr (error_other "unexpected end of JSON input")
          end
      end
  end.

#[local] Instance testArgs_shape : ArgShape testArgs :=
  {| shape_fields :=
       [ {| field_json_name := "val"; field_type := "string";
            field_tag_required := false; field_tag_description := "";
            field_omitempty := false |} ];
     shape_Unmarshal := testArgs_Unmarshal |}.

(** The argument type of the builder tests, [SimpleArgs], whose field is
    tagged required; and a shape with a required and an optional field. *)
Definition SimpleArgs_fields : list Field :=
  [ {| field_json_name := "input"; field_type := "string";
       field_tag_required := true; field_tag_description := "";
       field_omitempty := false |} ].

Definition MyArgs_fields : list Field :=
  [ {| field_json_name := "name"; field_type := "string";
       field_tag_required := true; field_tag_description := "The user's name";
       field_omitempty := false |};
    {| field_json_name := "age"; field_type := "integer";
       field_tag_required := false; field_tag_description := "The user's age in years";
       field_omitempty := false |} ].

Definition demo_args (v : string) : RawMessage :=
  json_object [json_member "val" (json_string v)].

(** The request of [TestHandleToolKit_Success]. *)
Definition demo_request_success : ToolKit :=
  {| ToolKit_Name := "toolkit";
     ToolKit_ToolKitParents :=
       [ {| ToolKitParent_Name := "parent1";
            ToolKitParent_ToolKitChilds :=
              [ {| ToolKitChild_Name := "c1b"; ToolKitChild_Args := demo_args "v1b" |};
                {| ToolKitChild_Name := "c1a"; ToolKitChild_Args := demo_args "v1a" |} ] |};
         {| ToolKitParent_Name := "parent2";
            ToolKitParent_ToolKitChilds :=
              [ {| ToolKitChild_Name := "c2a"; ToolKitChild_Args := demo_args "v2a" |} ] |} ] |}.

(** The request of [TestHandleToolKit_ParentNotFound]. *)
Definition demo_request_missing : ToolKit :=
  {| ToolKit_Name := "toolkit";
     ToolKit_ToolKitParents :=
       [ {| ToolKitParent_Name := "non_existent_parent";
            ToolKitParent_ToolKitChilds := [] |} ] |}.

(** An unregistered category followed by a registered one, in which the
    first tool fails and the second does not. *)
Definition demo_children_requests : list ToolKitChild :=
  [ {| ToolKitChild_Name := "c_err"; ToolKitChild_Args := demo_args "v1" |};
    {| ToolKitChild_Name := "c1a"; ToolKitChild_Args := demo_args "v2" |} ].

Definition demo_request_ghost : ToolKit :=
  {| ToolKit_Name := "toolkit";
     ToolKit_ToolKitParents :=
       [ {| ToolKitParent_Name := "ghost";
            ToolKitParent_ToolKitChilds :=
              [ {| ToolKitChild_Name := "c1a"; ToolKitChild_Args := demo_args "x" |};
                {| ToolKitChild_Name := "c1b"; ToolKitChild_Args := demo_args "y" |} ] |};
         {| ToolKitParent_Name := "parent1";
            ToolKitParent_ToolKitChilds := demo_children_requests |} ] |}.

Definition demo_request_empty : ToolKit :=
  {| ToolKit_Name := "toolkit"; ToolKit_ToolKitParents := [] |}.

Definition demo_requests : list ToolKit :=
  [demo_request_success; demo_request_missing; demo_request_ghost; demo_request_empty].

(** A payload cut short, and arguments with a number for [val]. *)
Definition demo_bad_input : RawMessage := "{" +:+ dq +:+ "invalid_json...".

Definition demo_bad_args : RawMessage := json_object [json_member "val" "123"].

(** [json.Unmarshal] into a request, on the texts of [demo_requests]. *)
Definition demo_Unmarshal_ToolKit (input : RawMessage) : ToolKit + error :=
  match list_find (fun r => ToolKit_json r = input) demo_requests with
  | Some (_, r) => inl r
  | None => inr (error_other "unexpected end of JSON input")
  end.

Definition demo_Marshal (v : any) : string + error :=
  match v with
  | any_Schema s => inl (Schema_json s)
  | any_nil => inl "null"
  | any_value v => inl (json_string v)
  | any_error e => inr (error_other "json: unsupported value")
  end.

Definition demo_JSON : EncodingJSON :=
  {| json_Unmarshal_ToolKit := demo_Unmarshal_ToolKit; json_Marshal := demo_Marshal |}.

#[local] Existing Instance demo_JSON.

(** A handler's call leaves its name in the world. *)
Definition demo_called (n : string) : M unit :=
  fun s => (tt, {| sys_log := sys_log s; sys_world := sys_world s ++ [n] |}).

(** The handler [createTestChildFn] of the tests binds. *)
Definition demo_handler (name retVal : string) (shouldErr : bool)
    (ctx : context_Context) (args : testArgs) : M (any * option error) :=
  demo_called name ;;
  if shouldErr then ret (any_nil, Some (error_other ("child_err_" +:+ name)))
  else ret (any_value (retVal +:+ ":" +:+ Val args), None).

Definition createTestChildFn (name retVal : string) (shouldErr : bool) : Child :=
  NewChild name ("desc_" +:+ name) (demo_handler name retVal shouldErr).

Definition demo_sys (log world : list string) : Sys :=
  {| sys_log := log; sys_world := world |}.

Definition demo_s0 : Sys := demo_sys [] [].

Definition demo_ctx : context_Context := tt.

Definition demo_parent1 : Parent :=
  (NewParent "parent1" "desc_parent1"
     [Some (createTestChildFn "c1a" "r1a" false);
      Some (createTestChildFn "c1b" "r1b" false);
      Some (createTestChildFn "c_err" "" true)] demo_s0).1.

Definition demo_parent2 : Parent :=
  (NewParent "parent2" "desc_parent2" [Some (createTestChildFn "c2a" "r2a" false)] demo_s0).1.

Definition demo_emptyP : Parent := (NewParent "emptyP" "desc_emptyP" [] demo_s0).1.

Definition demo_parents : list (option Parent) :=
  [Some demo_parent1; None; Some demo_parent2; Some demo_emptyP].

Definition demo_toolkit : Toolkit := (New "test_handle" demo_parents demo_s0).1.

(** A registry without parents, and one of two parents without children
    that answer every request with an empty entry. *)
Definition demo_toolkit_empty : Toolkit := (New "test_p_notfound" [] demo_s0).1.

Definition demo_plain_parent (name : string) : Parent :=
  {| Parent_GetName := name;
     Parent_GetDescription := "desc_" +:+ name;
     Parent_GetChildren := ∅;
     Parent_HandleChildren := fun _ _ =>
       ret {| ParentResponse_Name := name; ParentResponse_ChildsResponses := [] |} |}.

Definition demo_toolkit_plain : Toolkit :=
  (New "tk" [Some (demo_plain_parent "p1"); Some (demo_plain_parent "p2")] demo_s0).1.

(** Two traversal orders Go may pick. *)
Definition demo_order_1 : RangeOrder :=
  {| range_parents := map_to_list; range_children := fun _ => map_to_list |}.

Definition demo_order_2 : RangeOrder :=
  {| range_parents := fun m => reverse (map_to_list m);
     range_children := fun _ m => reverse (map_to_list m) |}.

End Demo.

From Stdlib Require DecimalString.

(** * The rest of the engine and the tools

    [GetToolkitSchema] of [toolkit/toolkit.go] with
    [GetToolKitSchemaForAnthropic] of [toolkit/types.go], and the tool
    implementations of [pkg/tools]. *)

Section Schemas.
Context `{RT : Runtime} `{JS : !EncodingJSON}.
(** What reflection finds in the struct [ToolKit]. *)
Context (ToolKit_shape : ArgShape ToolKit).

Definition GetToolKitSchemaForAnthropic : any := GenerateSchema ToolKit.

Definition GetToolkitSchema (t : Toolkit) (provider : string) : M any :=
  if String.eqb provider "anthropic" then
    ret GetToolKitSchemaForAnthropic
  else
    log_Print ("Warning: Unsupported schema provider '" +:+ provider
                 +:+ "', defaulting to Anthropic schema") ;;
    ret GetToolKitSchemaForAnthropic.

End Schemas.

(** ** The operating system, as the file tools use it *)

(** [os.WriteFile] and [os.ReadFile]: what they do to the world is theirs to
    say. *)
Class OS `{RT : Runtime} := {
  os_WriteFile : string -> string -> N -> World -> option error * World;
  os_ReadFile : string -> World -> (string + error) * World
}.

Section Tools.
Context `{RT : Runtime} `{SYS : !OS}.

Definition call_WriteFile (name data : string) (perm : N) : M (option error) :=
  fun s => let (err, w) := os_WriteFile name data perm (sys_world s) in
           (err, {| sys_log := sys_log s; sys_world := w |}).

Definition call_ReadFile (name : string) : M (string + error) :=
  fun s => let (r, w) := os_ReadFile name (sys_world s) in
           (r, {| sys_log := sys_log s; sys_world := w |}).

(** [errors.New]. *)
Definition errors_New (msg : string) : error := error_other msg.

(** ** [pkg/tools/operations] *)

Record EditFileArgs := {
  EditFileArgs_Path : string;
  EditFileArgs_Content : string
}.

Record EditFileResponse := {
  EditFileResponse_Success : bool;
  EditFileResponse_Error : string
}.

Record ReadFileArgs := {
  ReadFileArgs_Path : string
}.

Record ReadFileResponse := {
  ReadFileResponse_Success : bool;
  ReadFileResponse_Content : string;
  ReadFileResponse_Error : string
}.

(** [0644]. *)
Definition perm_0644 : N := 420%N.

Definition EditFile (ctx : context_Context) (args : EditFileArgs)
  : M (EditFileResponse * option error) :=
  log_Print ("Execute Edit File, with:  {" +:+ EditFileArgs_Path args +:+ " "
               +:+ EditFileArgs_Content args +:+ "}") ;;
  if String.eqb (EditFileArgs_Path args) "" then
    ret ({| EditFileResponse_Success := false;
            EditFileResponse_Error := "path_required" |},
         Some (errors_New "path_required"))
  else
    let* err := call_WriteFile (EditFileArgs_Path args) (EditFileArgs_Content args)
                               perm_0644 in
    match err with
    | Some err =>
        log_Print ("Execute Edit File - Error: Failed to write file "
                     +:+ EditFileArgs_Path args +:+ ": " +:+ error_Error err) ;;
        ret ({| EditFileResponse_Success := false;
                EditFileResponse_Error := error_Error err |},
             Some err)
    | None =>
        ret ({| EditFileResponse_Success := true; EditFileResponse_Error := "" |}, None)
    end.

Definition ReadFile (ctx : context_Context) (args : ReadFileArgs)
  : M (ReadFileResponse * option error) :=
  log_Print ("Execute Read File, with:  {" +:+ ReadFileArgs_Path args +:+ "}") ;;
  if String.eqb (ReadFileArgs_Path args) "" then
    ret ({| ReadFileResponse_Success := false;
            ReadFileResponse_Content := "";
            ReadFileResponse_Error := "path_required" |},
         Some (errors_New "path_required"))
  else
    let* r := call_ReadFile (ReadFileArgs_Path args) in
    match r with
    | inr err =>
        log_Print ("Execute Read File - Error: Failed to read file "
                     +:+ ReadFileArgs_Path args +:+ ": " +:+ error_Error err) ;;
        ret ({| ReadFileResponse_Success := false;
                ReadFileResponse_Content := "";
                ReadFileResponse_Error := error_Error err |},
             Some err)
    | inl content =>
        ret ({| ReadFileResponse_Success := true;
                ReadFileResponse_Content := content;
                ReadFileResponse_Error := "" |},
             None)
    end.

(** ** [pkg/tools/search] *)

Record SearchWebArgs := {
  SearchWebArgs_Query : string
}.

(** [Results] is an [interface{}]: nil, or the slice of maps the mock
    fills in. *)
Record SearchWebResponse := {
  SearchWebResponse_Success : bool;
  SearchWebResponse_Results : option (list (gmap string string));
  SearchWebResponse_Error : string
}.

Record FetchURLArgs := {
  FetchURLArgs_URL : string
}.

Record FetchURLResponse := {
  FetchURLResponse_Success : bool;
  FetchURLResponse_Content : string;
  FetchURLResponse_Error : string
}.

Definition SearchWeb (ctx : context_Context) (args : SearchWebArgs)
  : M (SearchWebResponse * option error) :=
  log_Print ("Executing Search Web with query: " +:+ SearchWebArgs_Query args) ;;
  if String.eqb (SearchWebArgs_Query args) "" then
    ret ({| SearchWebResponse_Success := false;
            SearchWebResponse_Results := None;
            SearchWebResponse_Error := "query_required" |},
         Some (errors_New "query_required"))
  else
    ret ({| SearchWebResponse_Success := true;
            SearchWebResponse_Results :=
              Some [ <["title" := "Example Result 1 for '" +:+ SearchWebArgs_Query args +:+ "'"]>
                       (<["url" := "https://example.com/1"]> ∅);
                     <["title" := "Example Result 2 about '" +:+ SearchWebArgs_Query args +:+ "'"]>
                       (<["url" := "https://example.com/2"]> ∅) ];
            SearchWebResponse_Error := "" |},
         None).

Definition FetchURLContent (ctx : context_Context) (args : FetchURLArgs)
  : M (FetchURLResponse * option error) :=
  log_Print ("Executing Fetch URL Content for URL: " +:+ FetchURLArgs_URL args) ;;
  if String.eqb (FetchURLArgs_URL args) "" then
    ret ({| FetchURLResponse_Success := false;
            FetchURLResponse_Content := "";
            FetchURLResponse_Error := "url_required" |},
         Some (errors_New "url_required"))
  else
    let fakeHTML := "<html><body><h1>Mock Content for " +:+ FetchURLArgs_URL args
                      +:+ "</h1><p>This is simulated content.</p></body></html>" in
    ret ({| FetchURLResponse_Success := true;
            FetchURLResponse_Content := fakeHTML;
            FetchURLResponse_Error := "" |},
         None).

(** ** [pkg/tools/response] *)

Record ModelThinkingArgs := {
  ModelThinkingArgs_Thinking : string
}.

Record ModelResponseArgs := {
  ModelResponseArgs_Response : string
}.

Record ModelThinking := {
  ModelThinking_Success : bool;
  ModelThinking_Error : string
}.

Record ModelResponse := {
  ModelResponse_Success : bool;
  ModelResponse_Error : string
}.

Definition LogThinking (ctx : context_Context) (args : ModelThinkingArgs)
  : M (ModelThinking * option error) :=
  log_Print "Executing Model Thinking" ;;
  if String.eqb (ModelThinkingArgs_Thinking args) "" then
    log_Print "Model Thinking Warning: Received empty thinking string." ;;
    ret ({| ModelThinking_Success := true; ModelThinking_Error := "" |}, None)
  else
    log_Print ("--- MODEL THINKING START ---" +:+ nl +:+ ModelThinkingArgs_Thinking args
                 +:+ nl +:+ "--- MODEL THINKING END ---") ;;
    ret ({| ModelThinking_Success := true; ModelThinking_Error := "" |}, None).

Definition LogResponse (ctx : context_Context) (args : ModelResponseArgs)
  : M (ModelResponse * option error) :=
  log_Print "Executing Model Response." ;;
  if String.eqb (ModelResponseArgs_Response args) "" then
    log_Print "Model Response Warning: Received empty user response string." ;;
    ret ({| ModelResponse_Success := true; ModelResponse_Error := "" |}, None)
  else
    log_Print ("--- MODEL RESPONSE START ---" +:+ nl +:+ ModelResponseArgs_Response args
                 +:+ nl +:+ "--- MODEL RESPONSE END ---") ;;
    ret ({| ModelResponse_Success := true; ModelResponse_Error := "" |}, None).

End Tools.

(** ** The conversation loop of the example program

    [GenerateContent] of the example's [main] package sends the history to
    the model, answers every tool use of the reply through [HandleToolKit]
    and goes on, for at most five turns.  The model and the terminal are
    the world's. *)

Inductive ContentBlock :=
| TextBlock (Text : string)
| ThinkingBlock (Thinking : string)
| ToolUseBlock (ID Name : string) (Input : RawMessage)
| OtherBlock (shown : string).

(** The reply of [Messages.New], as far as the loop reads it. *)
Record anthropic_Message := {
  Message_Content : list ContentBlock;
  Message_InputTokens : Z;
  Message_OutputTokens : Z
}.

(** The entries of the history: the prompt, a reply handed back
    ([response.ToParam()]), and the user message that holds one tool
    result block. *)
Inductive MessageParam :=
| NewUserMessage (text : string)
| Message_ToParam (m : anthropic_Message)
| ToolResultMessage (toolUseID content : string) (isError : bool).

(** An integer in decimal, as [%d] and [Println] call_Println it. *)
Definition itoa (z : Z) : string :=
  DecimalString.NilZero.string_of_int (Z.to_int z).

Section Conversation.
Context `{RT : Runtime} `{JS : !EncodingJSON}.

(** The Anthropic client with its fixed parameters, [fmt]'s standard
    output, [json.Marshal] of a response tree and [context.Background]. *)
Class Anthropic := {
  Messages_New : list MessageParam -> World -> (anthropic_Message + error) * World;
  fmt_Println : string -> World -> World;
  json_Marshal_ToolKitResponse : ToolKitResponse -> string + error;
  context_Background : context_Context
}.
Context `{API : !Anthropic}.

Definition call_Messages_New (history : list MessageParam) : M (anthropic_Message + error) :=
  fun s => let (r, w) := Messages_New history (sys_world s) in
           (r, {| sys_log := sys_log s; sys_world := w |}).

Definition call_Println (line : string) : M unit :=
  fun s => (tt, {| sys_log := sys_log s; sys_world := fmt_Println line (sys_world s) |}).

Record ClaudeClient := {
  ClaudeClient_Toolkit : Toolkit
}.

(** The tool result message for one tool use: the body of the
    [ToolUseBlock] case after its first two statements. *)
Definition tool_result_message (c : ClaudeClient) (ctx : context_Context)
    (ID : string) (Input : RawMessage) : M MessageParam :=
  let* (toolkitResponse, toolErr) := HandleToolKit (ClaudeClient_Toolkit c) ctx Input in
  let marshalled := json_Marshal_ToolKitResponse toolkitResponse in
  let toolResult := match marshalled with inl bytes => bytes | inr _ => "" end in
  match toolErr with
  | Some toolErr =>
      call_Println ("Toolkit handling error: " +:+ error_Error toolErr) ;;
      ret (ToolResultMessage ID toolResult true)
  | None =>
      match marshalled with
      | inr marshalErr =>
          call_Println ("Failed to marshal toolkit results: " +:+ error_Error marshalErr) ;;
          ret (ToolResultMessage ID
                 ("Error marshaling result: " +:+ error_Error marshalErr) true)
      | inl _ => ret (ToolResultMessage ID toolResult false)
      end
  end.

(** The variables the loop over the blocks of a reply carries. *)
Record TurnState := {
  turn_history : list MessageParam;
  turn_toolUsedInTurn : bool;
  turn_thinkingInTurn : string;
  turn_messageInTurn : string
}.

(** The body of the loop over the blocks of a reply. *)
Definition GenerateContent_block (c : ClaudeClient) (ctx : context_Context)
    (st : TurnState) (block : ContentBlock) : M TurnState :=
  match block with
  | TextBlock text =>
      ret {| turn_history := turn_history st;
             turn_toolUsedInTurn := turn_toolUsedInTurn st;
             turn_thinkingInTurn := turn_thinkingInTurn st;
             turn_messageInTurn := text |}
  | ThinkingBlock thinking =>
      ret {| turn_history := turn_history st;
             turn_toolUsedInTurn := turn_toolUsedInTurn st;
             turn_thinkingInTurn := thinking;
             turn_messageInTurn := turn_messageInTurn st |}
  | ToolUseBlock ID Name Input =>
      call_Println ("Tool Used: " +:+ Name) ;;
      let* toolResultMessage := tool_result_message c ctx ID Input in
      ret {| turn_history := turn_history st ++ [toolResultMessage];
             turn_toolUsedInTurn := true;
             turn_thinkingInTurn := turn_thinkingInTurn st;
             turn_messageInTurn := turn_messageInTurn st |}
  | OtherBlock shown =>
      call_Println ("Unexpected content block type: " +:+ shown) ;;
      ret st
  end.

Definition answer_text (finalThinking finalMessageResponse : string) : string :=
  "Thinking: " +:+ finalThinking +:+ nl +:+ "Message: " +:+ finalMessageResponse.

(** The loop [for i := 0; i < 5; i++], by the number of turns left. *)
Fixpoint GenerateContent_turns (c : ClaudeClient) (ctx : context_Context)
    (turns i : nat) (history : list MessageParam) : M (string * option error) :=
  match turns with
  | 0 => ret (answer_text "" "", None)
  | S turns' =>
      call_Println ("--- Calling Claude API (Turn " +:+ itoa (Z.of_nat (i + 1)) +:+ ") ---") ;;
      let* r := call_Messages_New history in
      match r with
      | inr err =>
          call_Println ("Error calling Claude API: " +:+ error_Error err) ;;
          ret ("", Some err)
      | inl response =>
          call_Println "--- Usage ---" ;;
          call_Println ("Input tokens: " +:+ itoa (Message_InputTokens response)) ;;
          call_Println ("Output tokens: " +:+ itoa (Message_OutputTokens response)) ;;
          let history := history ++ [Message_ToParam response] in
          let* st := for_range (GenerateContent_block c ctx) (Message_Content response)
                       {| turn_history := history; turn_toolUsedInTurn := false;
                          turn_thinkingInTurn := ""; turn_messageInTurn := "" |} in
          if turn_toolUsedInTurn st then
            GenerateContent_turns c ctx turns' (S i) (turn_history st)
          else
            ret (answer_text (turn_thinkingInTurn st) (turn_messageInTurn st), None)
      end
  end.

Definition GenerateContent (c : ClaudeClient) (prompt : string)
  : M (string * option error) :=
  let message := NewUserMessage prompt in
  let history := [message] in
  let ctx := context_Background in
  GenerateContent_turns c ctx 5 0 history.

(** The tool uses of a reply, the last text and the last thinking. *)
Definition is_tool_use (b : ContentBlock) : bool :=
  match b with ToolUseBlock _ _ _ => true | _ => false end.

Definition block_text (b : ContentBlock) : option string :=
  match b with TextBlock t => Some t | _ => None end.

Definition block_thinking (b : ContentBlock) : option string :=
  match b with ThinkingBlock t => Some t | _ => None end.

Definition last_text (blocks : list ContentBlock) : string :=
  default "" (last (omap block_text blocks)).

Definition last_thinking (blocks : list ContentBlock) : string :=
  default "" (last (omap block_thinking blocks)).

Definition is_tool_result (m : MessageParam) : bool :=
  match m with ToolResultMessage _ _ _ => true | _ => false end.

Definition tool_use_ids (blocks : list ContentBlock) : list string :=
  omap (fun b => match b with ToolUseBlock ID _ _ => Some ID | _ => None end) blocks.

Definition tool_result_ids (history : list MessageParam) : list string :=
  omap (fun m => match m with ToolResultMessage ID _ _ => Some ID | _ => None end) history.

(** Counting the calls of the model by an observation [calls] of the world:
    a call of the model adds one, printing adds none, and neither does the
    toolkit of the client. *)
Definition counts_model_calls (c : ClaudeClient) (calls : World -> nat) : Prop :=
  (forall h w, calls (Messages_New h w).2 = S (calls w)) /\
  (forall line w, calls (fmt_Println line w) = calls w) /\
  (forall ctx input s,
     calls (sys_world (HandleToolKit (ClaudeClient_Toolkit c) ctx input s).2) =
     calls (sys_world s)).

End Conversation.

(** ** Further vocabulary *)

(** [x] occurs in [s] ([strings.Contains]). *)
Definition occurs_in (x s : string) : Prop :=
  exists pre post, s = pre +:+ x +:+ post.

(** The texts of a list, one after the other. *)
Definition strcat (l : list string) : string := foldr String.append "" l.

(** The number of places of [s] at which [pat] begins ([strings.Count] for
    a pattern that does not overlap itself). *)
Fixpoint count_occurrences (pat s : string) : nat :=
  match s with
  | EmptyString => 0
  | String _ rest =>
      (if String.prefix pat s then 1 else 0) + count_occurrences pat rest
  end.

Section VocabularyMore.
Context `{RT : Runtime} `{JS : !EncodingJSON}.

(** The child's schema does not marshal. *)
Definition marshal_fails (c : Child) : bool :=
  match json_Marshal (Child_GetInputSchema c) with
  | inl _ => false
  | inr _ => true
  end.

(** The number of registered children whose schema does not marshal. *)
Definition marshal_failures (t : Toolkit) : nat :=
  sum_list ((fun e : string * Parent =>
               length (filter (fun c : string * Child => marshal_fails c.2 = true)
                              (map_to_list (Parent_GetChildren e.2))))
              <$> map_to_list (Toolkit_parents t)).

(** The lines of the manifest before the first parent. *)
Definition manifest_header (name : string) : string :=
  toolkit_line name
    +:+ "A <toolkit> is a collection of <parents>, a <parent> is a collection of <childs>."
    +:+ nl
    +:+ "Below is the list of available <parents> and their <childs>:" +:+ nl.

(** The line [processToolKit] logs for a category it does not know. *)
Definition parent_not_found_line (parentReq : ToolKitParent) : string :=
  "Toolkit: Requested parent '" +:+ ToolKitParent_Name parentReq +:+ "' not found".

(** The text of an entry and of a block of the manifest. *)
Definition child_text (b : ChildBlock) : string :=
  child_line (cb_name b) (cb_description b) (cb_schema b).

Definition parent_text (b : ParentBlock) : string :=
  parent_line (pb_name b) (pb_description b)
    +:+ strcat (child_text <$> pb_children b)
    +:+ "</parent>" +:+ nl +:+ note_line.

(** A request with the given categories. *)
Definition ToolKit_of (name : string) (parentReqs : list ToolKitParent) : ToolKit :=
  {| ToolKit_Name := name; ToolKit_ToolKitParents := parentReqs |}.

End VocabularyMore.

(** ** A concrete file system

    Files by path; writing to the root directory fails, reading a path that
    holds no file fails. *)

Definition demo_fs_Runtime : Runtime :=
  {| context_Context := unit; World := gmap string string; Value := string |}.

Definition demo_fs_WriteFile (name data : string) (perm : N) (w : gmap string string)
  : option error * gmap string string :=
  if String.eqb name "/" then (Some (error_other "open /: is a directory"), w)
  else (None, <[name := data]> w).

Definition demo_fs_ReadFile (name : string) (w : gmap string string)
  : (string + error) * gmap string string :=
  match w !! name with
  | Some content => (inl content, w)
  | None => (inr (error_other ("open " +:+ name +:+ ": no such file or directory")), w)
  end.

Definition demo_OS : @OS demo_fs_Runtime :=
  @Build_OS demo_fs_Runtime demo_fs_WriteFile demo_fs_ReadFile.

Definition demo_fs_s0 : @Sys demo_fs_Runtime :=
  @Build_Sys demo_fs_Runtime [] (∅ : gmap string string).

Definition demo_fs_ctx : @context_Context demo_fs_Runtime := tt.

Section DemoMore.
#[local] Existing Instance demo_Runtime.
#[local] Existing Instance demo_JSON.

(** The registry of [demo_toolkit] with one more parent. *)
Definition demo_toolkit_more : Toolkit :=
  (New "test_handle" (demo_parents ++ [Some (demo_plain_parent "extra")]) demo_s0).1.

Definition demo_two_parents : list (option Parent) :=
  [Some demo_parent1; Some demo_parent2].

(** Two parents that each hold a child of the same name [c]. *)
Definition demo_plain_child (name : string) : Child :=
  {| Child_GetName := name;
     Child_GetDescription := "desc_" +:+ name;
     Child_GetInputSchema := any_nil;
     Child_Handle := fun _ _ => ret (any_nil, None) |}.

Definition demo_parent_holding (name : string) (children : gmap string Child) : Parent :=
  {| Parent_GetName := name;
     Parent_GetDescription := "desc_" +:+ name;
     Parent_GetChildren := children;
     Parent_HandleChildren := fun _ _ =>
       ret {| ParentResponse_Name := name; ParentResponse_ChildsResponses := [] |} |}.

Definition demo_toolkit_shared : Toolkit :=
  (New "tk"
     [Some (demo_parent_holding "p1" {[ "c" := demo_plain_child "c" ]});
      Some (demo_parent_holding "p2" {[ "c" := demo_plain_child "c" ]})]
     demo_s0).1.

(** A model that asks for the tools of [demo_request_success] in every
    reply, and one that answers at once. *)
Definition demo_reply_tool : anthropic_Message :=
  {| Message_Content :=
       [ThinkingBlock "plan";
        ToolUseBlock "toolu_1" "test_handle" (ToolKit_json demo_request_success)];
     Message_InputTokens := 120;
     Message_OutputTokens := 40 |}.

Definition demo_reply_text : anthropic_Message :=
  {| Message_Content := [ThinkingBlock "plan"; TextBlock "draft"; TextBlock "done"];
     Message_InputTokens := 100;
     Message_OutputTokens := 8 |}.

Definition demo_Marshal_ToolKitResponse (r : ToolKitResponse) : string + error :=
  inl (json_object [json_member "name" (json_string (ToolKitResponse_Name r))]).

(** A call of the model leaves the mark [api] in the world; the terminal
    is not recorded. *)
Definition demo_API (reply : anthropic_Message) : Anthropic :=
  {| Messages_New := fun _ w => (inl reply, w ++ ["api"]);
     fmt_Println := fun _ w => w;
     json_Marshal_ToolKitResponse := demo_Marshal_ToolKitResponse;
     context_Background := demo_ctx |}.

Definition demo_calls (w : list string) : nat :=
  length (filter (fun mark => mark = "api") w).

Definition demo_client_empty : ClaudeClient :=
  {| ClaudeClient_Toolkit := demo_toolkit_empty |}.

End DemoMore.

(** * Properties *)

Section Loops.
Context `{RT : Runtime}.

Lemma bind_run {A B} (m : M A) (k : A -> M B) s :
  bind m k s = k (m s).1 (m s).2.
Proof. unfold bind. by destruct (m s). Qed.

Lemma for_range_app {A B} (body : B -> A -> M B) l1 l2 acc s :
  for_range body (l1 ++ l2) acc s =
  for_range body l2 (for_range body l1 acc s).1 (for_range body l1 acc s).2.
Proof.
  revert acc s. induction l1 as [|x l1 IH]; intros acc s; [done|].
  cbn [for_range app]. rewrite !bind_run. apply IH.
Qed.

Lemma for_range_snoc {A B} (body : B -> A -> M B) l x acc s :
  for_range body (l ++ [x]) acc s =
  body (for_range body l acc s).1 x (for_range body l acc s).2.
Proof.
  rewrite for_range_app. cbn [for_range]. rewrite bind_run.
  unfold ret. by destruct (body _ _ _).
Qed.

(** An invariant of the loop-carried variables and the state holds after
    the loop when every turn keeps it. *)
Lemma for_range_invariant {A B} (body : B -> A -> M B) (I : B -> Sys -> Prop) l acc s :
  I acc s ->
  (forall acc s x, x ∈ l -> I acc s -> I (body acc x s).1 (body acc x s).2) ->
  I (for_range body l acc s).1 (for_range body l acc s).2.
Proof.
  revert acc s. induction l as [|x l IH]; intros acc s HI Hstep; [done|].
  cbn [for_range]. rewrite bind_run. apply IH.
  - apply Hstep; [left | done].
  - intros acc' s' y Hy. apply Hstep. by right.
Qed.

(** A loop that appends one entry per turn: the entries come out in the
    order of the list, one for each element, each computed in the state the
    loop has reached by then. *)
Lemma for_range_entries {A B E} (body : B -> A -> M B) (items : B -> list E)
    (entry : A -> Sys -> E) l acc s :
  (forall acc x s, items (body acc x s).1 = items acc ++ [entry x s]) ->
  exists es,
    items (for_range body l acc s).1 = items acc ++ es /\
    length es = length l /\
    forall j x, l !! j = Some x ->
      es !! j = Some (entry x (for_range body (take j l) acc s).2).
Proof.
  intros Hbody. induction l as [|r l IH] using rev_ind.
  - exists []. rewrite app_nil_r. by repeat split.
  - rewrite for_range_snoc, Hbody.
    destruct IH as (es & Hes & Hlen & Hall).
    exists (es ++ [entry r (for_range body l acc s).2]).
    split; [by rewrite Hes, app_assoc|].
    split; [rewrite !length_app; cbn; lia|].
    intros j x Hj.
    destruct (decide (j < length l)) as [Hlt|Hge].
    + rewrite lookup_app_l in Hj by done.
      rewrite lookup_app_l by lia.
      rewrite take_app_le by lia. by apply Hall.
    + assert (j = length l) as ->.
      { apply lookup_lt_Some in Hj. rewrite length_app in Hj. cbn in Hj. lia. }
      rewrite list_lookup_middle in Hj by done. injection Hj as <-.
      rewrite list_lookup_middle by done.
      by rewrite take_app_length.
Qed.

End Loops.

Section Dispatch.
Context `{RT : Runtime} `{JS : !EncodingJSON}.

Lemma processToolKit_body_entry t ctx tl parentReq s :
  (processToolKit_body t ctx tl parentReq s).1 =
  ToolKitResponse_AddResponse tl (parent_entry t ctx parentReq s).
Proof.
  unfold processToolKit_body, parent_entry.
  destruct (Toolkit_parents t !! _) as [parent|]; by rewrite bind_run.
Qed.

Lemma processToolKit_loop_name t ctx reqs tl s :
  ToolKitResponse_Name (for_range (processToolKit_body t ctx) reqs tl s).1 =
  ToolKitResponse_Name tl.
Proof.
  apply (for_range_invariant _
           (fun acc _ => ToolKitResponse_Name acc = ToolKitResponse_Name tl)); [done|].
  intros acc s' x _ Hacc. by rewrite processToolKit_body_entry.
Qed.

Lemma processToolKit_loop_entries t ctx reqs tl s :
  exists prs,
    ToolKitResponse_Responses (for_range (processToolKit_body t ctx) reqs tl s).1 =
      ToolKitResponse_Responses tl ++ prs /\
    length prs = length reqs /\
    forall j parentReq, reqs !! j = Some parentReq ->
      prs !! j = Some (parent_entry t ctx parentReq
                         (for_range (processToolKit_body t ctx) (take j reqs) tl s).2).
Proof.
  apply (for_range_entries _ ToolKitResponse_Responses (parent_entry t ctx)).
  intros acc x s'. by rewrite processToolKit_body_entry.
Qed.

(** The state in which the engine reaches category [j] of a request. *)
Lemma processToolKit_take_state t ctx req j s :
  (processToolKit t ctx (ToolKit_take j req) s).2 =
  (for_range (processToolKit_body t ctx) (take j (ToolKit_ToolKitParents req))
     {| ToolKitResponse_Name := GetToolkitName t; ToolKitResponse_Responses := [] |} s).2.
Proof.
  unfold processToolKit, ToolKit_take. cbn.
  destruct (take j (ToolKit_ToolKitParents req)) as [|r rest] eqn:E; [done|].
  cbn [length Nat.eqb]. by rewrite bind_run.
Qed.

(** What [processToolKit] returns for a request with categories. *)
Lemma processToolKit_entries t ctx req s :
  ToolKit_ToolKitParents req <> [] ->
  let out := processToolKit t ctx req s in
  out.1.2 = None /\
  ToolKitResponse_Name out.1.1 = Toolkit_name t /\
  length (ToolKitResponse_Responses out.1.1) = length (ToolKit_ToolKitParents req) /\
  forall j parentReq, ToolKit_ToolKitParents req !! j = Some parentReq ->
    ToolKitResponse_Responses out.1.1 !! j =
    Some (parent_entry t ctx parentReq (processToolKit t ctx (ToolKit_take j req) s).2).
Proof.
  intros Hne.
  assert (Nat.eqb (length (ToolKit_ToolKitParents req)) 0 = false) as Hlen0.
  { by destruct (ToolKit_ToolKitParents req). }
  unfold processToolKit at 1. cbn zeta.
  rewrite Hlen0, bind_run. cbn [ret fst snd].
  destruct (processToolKit_loop_entries t ctx (ToolKit_ToolKitParents req)
              {| ToolKitResponse_Name := GetToolkitName t;
                 ToolKitResponse_Responses := [] |} s)
    as (prs & Hprs & Hlen & Hall).
  cbn in Hprs. repeat split; [apply processToolKit_loop_name| |].
  - by rewrite Hprs.
  - intros j parentReq Hj. rewrite Hprs, processToolKit_take_state. by apply Hall.
Qed.

End Dispatch.

Section Children.
Context `{RT : Runtime} `{JS : !EncodingJSON}.

Lemma HandleChildren_body_entry name children ctx pr req s :
  (HandleChildren_body name children ctx pr req s).1 =
  ParentResponse_AddResponse pr (child_entry name children ctx req s).
Proof.
  unfold HandleChildren_body, child_entry.
  destruct (children !! _) as [child|]; [|done].
  rewrite bind_run.
  destruct (Child_Handle child ctx (ToolKitChild_Args req) s) as [[result [e|]] s'];
    done.
Qed.

Lemma child_entry_name name children ctx req s :
  ChildResponse_Name (child_entry name children ctx req s) = ToolKitChild_Name req.
Proof. unfold child_entry. by destruct (children !! _). Qed.

Lemma HandleChildren_name name children ctx reqs s :
  ParentResponse_Name (HandleChildren name children ctx reqs s).1 = name.
Proof.
  unfold HandleChildren.
  apply (for_range_invariant _ (fun acc _ => ParentResponse_Name acc = name)); [done|].
  intros acc s' x _ Hacc. by rewrite HandleChildren_body_entry.
Qed.

Lemma HandleChildren_take name children ctx reqs j s :
  HandleChildren name children ctx (take j reqs) s =
  for_range (HandleChildren_body name children ctx) (take j reqs)
    {| ParentResponse_Name := name; ParentResponse_ChildsResponses := [] |} s.
Proof. done. Qed.

(** [HandleChildren] answers every request, in request order. *)
Lemma HandleChildren_entries name children ctx reqs s :
  length (ParentResponse_ChildsResponses (HandleChildren name children ctx reqs s).1) =
    length reqs /\
  forall j req, reqs !! j = Some req ->
    ParentResponse_ChildsResponses (HandleChildren name children ctx reqs s).1 !! j =
    Some (child_entry name children ctx req
            (HandleChildren name children ctx (take j reqs) s).2).
Proof.
  unfold HandleChildren.
  destruct (for_range_entries (HandleChildren_body name children ctx)
              ParentResponse_ChildsResponses (child_entry name children ctx) reqs
              {| ParentResponse_Name := name; ParentResponse_ChildsResponses := [] |} s)
    as (es & Hes & Hlen & Hall).
  { intros acc x s'. by rewrite HandleChildren_body_entry. }
  cbn in Hes. rewrite Hes. by split.
Qed.

Lemma HandleChildren_names name children ctx reqs s :
  ChildResponse_Name <$>
    ParentResponse_ChildsResponses (HandleChildren name children ctx reqs s).1 =
  ToolKitChild_Name <$> reqs.
Proof.
  destruct (HandleChildren_entries name children ctx reqs s) as [Hlen Hall].
  apply list_eq. intros j. rewrite !list_lookup_fmap.
  destruct (reqs !! j) as [req|] eqn:Hj.
  - rewrite (Hall _ _ Hj). cbn. by rewrite child_entry_name.
  - apply lookup_ge_None in Hj.
    rewrite (proj2 (lookup_ge_None _ _)) by lia. done.
Qed.

End Children.

Section Registry.
Context `{RT : Runtime} `{JS : !EncodingJSON}.

(** A registration loop: absent entries leave the map alone, present ones
    are stored under their name.  The map then holds, under each name, the
    last entry of that name. *)
Lemma for_range_register {A} (nm : A -> string)
    (body : gmap string A -> option A -> M (gmap string A)) :
  (forall m s, (body m None s).1 = m) ->
  (forall m p s, (body m (Some p) s).1 = <[nm p := p]> m) ->
  forall l m s k,
    (for_range body l m s).1 !! k =
    match last (filter (fun p => nm p = k) (omap id l)) with
    | Some p => Some p
    | None => m !! k
    end.
Proof.
  intros Hnil Hput l m s k. induction l as [|x l IH] using rev_ind; [done|].
  rewrite for_range_snoc, omap_app, filter_app, last_app.
  destruct x as [p|]; cbn.
  - rewrite Hput. case_decide as Hk; cbn.
    + subst k. by rewrite lookup_insert_eq.
    + by rewrite lookup_insert_ne.
  - by rewrite Hnil.
Qed.

Lemma New_body_nil m s : (New_body m None s).1 = m.
Proof. done. Qed.

Lemma New_body_put m p s : (New_body m (Some p) s).1 = <[Parent_GetName p := p]> m.
Proof. unfold New_body. rewrite bind_run. done. Qed.

Lemma NewParent_body_nil m s : (NewParent_body m None s).1 = m.
Proof. done. Qed.

Lemma NewParent_body_put m c s :
  (NewParent_body m (Some c) s).1 = <[Child_GetName c := c]> m.
Proof. unfold NewParent_body. rewrite bind_run. done. Qed.

Lemma New_lookup name parents s k :
  Toolkit_parents (New name parents s).1 !! k =
  last (filter (fun p => Parent_GetName p = k) (omap id parents)).
Proof.
  unfold New. rewrite bind_run. cbn.
  rewrite (for_range_register Parent_GetName New_body New_body_nil New_body_put).
  rewrite lookup_empty. by destruct (last _).
Qed.

Lemma NewParent_lookup name description children s k :
  Parent_GetChildren (NewParent name description children s).1 !! k =
  last (filter (fun c => Child_GetName c = k) (omap id children)).
Proof.
  unfold NewParent. rewrite bind_run. cbn.
  rewrite (for_range_register Child_GetName NewParent_body
             NewParent_body_nil NewParent_body_put).
  rewrite lookup_empty. by destruct (last _).
Qed.

Lemma last_filter_holds {A} (P : A -> Prop) `{forall x, Decision (P x)} l x :
  last (filter P l) = Some x -> P x /\ x ∈ l.
Proof.
  intros Hlast. apply last_Some_elem_of in Hlast.
  by apply list_elem_of_filter in Hlast.
Qed.

Lemma NewParent_name name description children s :
  Parent_GetName (NewParent name description children s).1 = name.
Proof. unfold NewParent. by rewrite bind_run. Qed.

Lemma NewParent_keyed name description children s :
  Parent_keyed (NewParent name description children s).1.
Proof.
  intros k c Hk. rewrite NewParent_lookup in Hk.
  by apply last_filter_holds in Hk as [? _].
Qed.

Lemma NewParent_dispatches name description children s :
  Parent_dispatches (NewParent name description children s).1.
Proof. unfold Parent_dispatches, NewParent. by rewrite bind_run. Qed.

Lemma elem_of_omap_id {A} (l : list (option A)) x : x ∈ omap id l <-> Some x ∈ l.
Proof.
  rewrite list_elem_of_omap. split.
  - intros (y & Hy & Hx). cbn in Hx. by subst y.
  - intros Hx. by exists (Some x).
Qed.

Lemma New_keyed name parents s :
  (forall p, Some p ∈ parents -> Parent_keyed p) ->
  Toolkit_keyed (New name parents s).1.
Proof.
  intros Hall k p Hk. rewrite New_lookup in Hk.
  apply last_filter_holds in Hk as [Hname Hin].
  split; [done|]. apply Hall. by apply elem_of_omap_id.
Qed.

Lemma New_built name parents s :
  (forall p, Some p ∈ parents -> Parent_dispatches p) ->
  Toolkit_built (New name parents s).1.
Proof.
  intros Hall k p Hk. rewrite New_lookup in Hk.
  apply last_filter_holds in Hk as [Hname Hin].
  split; [done|]. apply Hall. by apply elem_of_omap_id.
Qed.

Lemma New_name name parents s : Toolkit_name (New name parents s).1 = name.
Proof. unfold New. by rewrite bind_run. Qed.

End Registry.

Section Diagnostics.
Context `{RT : Runtime} `{JS : !EncodingJSON}.

Lemma warn_duplicate_parent_not_nil n : warn_duplicate_parent n <> warn_nil_parent.
Proof. unfold warn_duplicate_parent, warn_nil_parent. cbn. discriminate. Qed.

Lemma New_body_state m p s :
  (New_body m p s).2 =
  {| sys_log := sys_log s ++ New_body_lines m p; sys_world := sys_world s |}.
Proof.
  destruct s as [lg w]. unfold New_body, New_body_lines.
  destruct p as [p|]; [|done].
  rewrite bind_run. destruct (m !! Parent_GetName p); cbn; [done|].
  by rewrite app_nil_r.
Qed.

Lemma New_body_lines_nil m p :
  length (filter (fun l => l = warn_nil_parent) (New_body_lines m p)) =
  length (filter (fun p => p = None) [p]).
Proof.
  unfold New_body_lines. destruct p as [p|]; [|done].
  destruct (m !! Parent_GetName p); [|done].
  rewrite filter_cons. case_decide as Hw; [|done].
  by apply warn_duplicate_parent_not_nil in Hw.
Qed.

(** [New] only writes to the log, and writes the nil warning once per nil
    entry. *)
Lemma New_loop_log parents m s :
  exists lines,
    (for_range New_body parents m s).2 =
      {| sys_log := sys_log s ++ lines; sys_world := sys_world s |} /\
    length (filter (fun l => l = warn_nil_parent) lines) =
    length (filter (fun p => p = None) parents).
Proof.
  induction parents as [|p parents IH] using rev_ind.
  - exists []. rewrite app_nil_r. by destruct s.
  - destruct IH as (lines & Hstate & Hcount).
    rewrite for_range_snoc, New_body_state, Hstate. cbn.
    exists (lines ++ New_body_lines (for_range New_body parents m s).1 p).
    split; [by rewrite app_assoc|].
    rewrite !filter_app, !length_app, Hcount. f_equal. apply New_body_lines_nil.
Qed.

End Diagnostics.

Lemma filter_bool {A} (f : A -> bool) (l : list A) :
  List.filter f l = filter (fun x => f x = true) l.
Proof.
  induction l as [|x l IH]; [done|].
  rewrite filter_cons. cbn [List.filter]. rewrite IH.
  destruct (f x); case_decide; done.
Qed.

Lemma append_assoc (a b c : string) : (a +:+ b) +:+ c = a +:+ b +:+ c.
Proof.
  induction a as [|x a IH]; [done|].
  change (String x ((a +:+ b) +:+ c) = String x (a +:+ b +:+ c)). by rewrite IH.
Qed.

Section ManifestText.
Context `{RT : Runtime} `{JS : !EncodingJSON}.

Lemma GetToolkitDescription_child_render parent sb entry s :
  (GetToolkitDescription_child parent sb entry s).1 = render_child sb (child_block entry).
Proof.
  unfold GetToolkitDescription_child, render_child, child_block, schema_text. cbn.
  destruct (json_Marshal _); [done|]. by rewrite bind_run.
Qed.

Lemma children_loop_render parent entries sb s :
  (for_range (GetToolkitDescription_child parent) entries sb s).1 =
  foldl render_child sb (child_block <$> entries).
Proof.
  revert sb s. induction entries as [|e entries IH]; intros sb s; [done|].
  cbn [for_range fmap list_fmap foldl]. rewrite bind_run, IH.
  by rewrite GetToolkitDescription_child_render.
Qed.

Lemma range_children_empty o p m :
  RangeOrder_ok o -> size m = 0 -> range_children o p m = [].
Proof.
  intros [_ Hok] Hsize. apply map_size_empty_iff in Hsize. subst m.
  specialize (Hok p ∅). rewrite map_to_list_empty in Hok.
  by apply Permutation_nil_r in Hok.
Qed.

Lemma GetToolkitDescription_parent_render o sb entry s :
  RangeOrder_ok o ->
  (GetToolkitDescription_parent o sb entry s).1 = render_parent sb (parent_block o entry).
Proof.
  intros Hok. unfold GetToolkitDescription_parent, render_parent, parent_block.
  cbn [pb_name pb_description pb_children]. rewrite bind_run. cbn [ret fst].
  destruct (Nat.ltb 0 (size (Parent_GetChildren entry.2))) eqn:Hsize.
  - rewrite bind_run. cbn [ret fst]. rewrite children_loop_render.
    by rewrite !append_assoc.
  - apply Nat.ltb_ge in Hsize.
    rewrite (range_children_empty o) by (done || lia).
    cbn [fmap list_fmap foldl ret fst]. by rewrite !append_assoc.
Qed.

Lemma parents_loop_render o entries sb s :
  RangeOrder_ok o ->
  (for_range (GetToolkitDescription_parent o) entries sb s).1 =
  foldl render_parent sb (parent_block o <$> entries).
Proof.
  intros Hok. revert sb s.
  induction entries as [|e entries IH]; intros sb s; [done|].
  cbn [for_range fmap list_fmap foldl]. rewrite bind_run, IH.
  by rewrite GetToolkitDescription_parent_render.
Qed.

(** The printer prints the document [manifest_blocks]. *)
Lemma GetToolkitDescription_render o t s :
  RangeOrder_ok o ->
  (GetToolkitDescription o t s).1 =
  render_manifest (Toolkit_name t) (manifest_blocks o t).
Proof.
  intros Hok. unfold GetToolkitDescription, render_manifest, manifest_blocks.
  rewrite bind_run. cbn [ret fst]. rewrite parents_loop_render by done.
  by rewrite !append_assoc.
Qed.

Lemma manifest_parent_names o t :
  pb_name <$> manifest_blocks o t =
  (fun e => Parent_GetName e.2) <$> range_parents o (Toolkit_parents t).
Proof. unfold manifest_blocks. by rewrite <- list_fmap_compose. Qed.

Lemma parent_block_child_names o entry :
  cb_name <$> pb_children (parent_block o entry) =
  (fun e => Child_GetName e.2) <$>
    range_children o entry.2 (Parent_GetChildren entry.2).
Proof. unfold parent_block. cbn. by rewrite <- list_fmap_compose. Qed.

(** In a keyed map the names of the entries are the keys. *)
Lemma keyed_names {A} (nm : A -> string) (m : gmap string A) (l : list (string * A)) :
  map_Forall (fun k x => nm x = k) m ->
  l ≡ₚ map_to_list m ->
  (fun e => nm e.2) <$> l = l.*1.
Proof.
  intros Hkeyed Hperm. apply list_fmap_ext. intros i [k x] Hi. cbn.
  apply (Hkeyed k x). apply elem_of_map_to_list. rewrite <- Hperm.
  by apply list_elem_of_lookup_2 in Hi.
Qed.

End ManifestText.

(** * Properties of the specification *)

Section Claims.
Context `{RT : Runtime} `{JS : !EncodingJSON}.

Lemma HandleToolKit_decoded t ctx input req s :
  json_Unmarshal_ToolKit input = inl req ->
  HandleToolKit t ctx input s = processToolKit t ctx req s.
Proof. intros Hdec. unfold HandleToolKit, parseToolKitInput. by rewrite Hdec. Qed.

Lemma processToolKit_empty t ctx req s :
  ToolKit_ToolKitParents req = [] ->
  processToolKit t ctx req s =
  ({| ToolKitResponse_Name := Toolkit_name t; ToolKitResponse_Responses := [] |},
   Some (NewError "no_toolkit_parents" "No toolkit parents specified in the request"),
   s).
Proof. intros Hempty. unfold processToolKit. by rewrite Hempty. Qed.

Lemma parent_entry_shape t ctx parentReq s :
  Toolkit_built t ->
  ParentResponse_Name (parent_entry t ctx parentReq s) = ToolKitParent_Name parentReq /\
  ChildResponse_Name <$> ParentResponse_ChildsResponses (parent_entry t ctx parentReq s) =
  match Toolkit_parents t !! ToolKitParent_Name parentReq with
  | Some _ => ToolKitChild_Name <$> ToolKitParent_ToolKitChilds parentReq
  | None => ["_parent_error"]
  end.
Proof.
  intros Hbuilt. unfold parent_entry.
  destruct (Toolkit_parents t !! _) as [parent|] eqn:Hp; [|done].
  destruct (Hbuilt _ _ Hp) as [Hname Hdisp]. rewrite Hdisp.
  by rewrite HandleChildren_name, HandleChildren_names.
Qed.

(** C1, as amended: for every decoded request with N categories against a
    registry of parents that dispatch as [NewParent]'s do, the response has
    exactly N parent-entries, in request order and under the requested
    names; the entry of a registered category has exactly as many
    child-entries as the category lists tools, in request order and under
    the requested names; the entry of an unregistered category has the
    single child-entry [_parent_error] instead. *)
Theorem C1_response_mirrors_request t ctx input req s :
  Toolkit_built t ->
  json_Unmarshal_ToolKit input = inl req ->
  response_shape (HandleToolKit t ctx input s).1.1 = mirrored_shape t req.
Proof.
  intros Hbuilt Hdec. rewrite (HandleToolKit_decoded _ _ _ _ _ Hdec).
  unfold response_shape, mirrored_shape.
  destruct (decide (ToolKit_ToolKitParents req = [])) as [Hempty|Hne].
  { rewrite processToolKit_empty by done. by rewrite Hempty. }
  destruct (processToolKit_entries t ctx req s Hne) as (_ & _ & Hlen & Hall).
  apply list_eq. intros j. rewrite !list_lookup_fmap.
  destruct (ToolKit_ToolKitParents req !! j) as [parentReq|] eqn:Hj.
  - rewrite (Hall _ _ Hj). cbn.
    by destruct (parent_entry_shape t ctx parentReq
                   (processToolKit t ctx (ToolKit_take j req) s).2 Hbuilt) as [-> ->].
  - apply lookup_ge_None in Hj.
    rewrite (proj2 (lookup_ge_None _ _)) by lia. done.
Qed.

(** C3: a payload that fails to decode makes [HandleToolKit] return a
    non-nil error together with a response of exactly one parent-entry with
    exactly one child-entry, whose response is a [ToolKitError] with code
    [invalid_input_json]; nothing is dispatched: the world is left as it
    was, the log gains the one line on the parse error, and the outcome is
    the same whatever the registry holds. *)
Theorem C3_decode_failure t ctx input err s :
  json_Unmarshal_ToolKit input = inr err ->
  exists e pe ce tke,
    (HandleToolKit t ctx input s).1.2 = Some e /\
    ToolKitResponse_Responses (HandleToolKit t ctx input s).1.1 = [pe] /\
    ParentResponse_ChildsResponses pe = [ce] /\
    ChildResponse_Response ce = any_error (error_ToolKitError tke) /\
    Code tke = "invalid_input_json" /\
    sys_world (HandleToolKit t ctx input s).2 = sys_world s /\
    sys_log (HandleToolKit t ctx input s).2 =
      sys_log s ++ ["Error parsing toolkit input: " +:+ error_Error e] /\
    forall t', HandleToolKit t' ctx input s = HandleToolKit t ctx input s.
Proof.
  intros Hdec. unfold HandleToolKit, parseToolKitInput. rewrite Hdec.
  rewrite bind_run. cbn.
  eexists _, _, _, _. repeat split; reflexivity.
Qed.

(** C4: a decoded request without categories makes [HandleToolKit] return
    the [ToolKitError] with code [no_toolkit_parents] as its error, with a
    response that carries the name of the toolkit and no parent-entry. *)
Theorem C4_no_parents t ctx input req s :
  json_Unmarshal_ToolKit input = inl req ->
  ToolKit_ToolKitParents req = [] ->
  exists tke,
    HandleToolKit t ctx input s =
      ({| ToolKitResponse_Name := Toolkit_name t; ToolKitResponse_Responses := [] |},
       Some (error_ToolKitError tke), s) /\
    Code tke = "no_toolkit_parents".
Proof.
  intros Hdec Hempty. rewrite (HandleToolKit_decoded _ _ _ _ _ Hdec).
  rewrite processToolKit_empty by done. by eexists.
Qed.

(** C5: when a decoded request names an unregistered category,
    [HandleToolKit] returns a nil error and one parent-entry per requested
    category; at the position of every unregistered category stands an entry
    under the requested name whose single child-entry holds the
    [ToolKitError] with code [parent_not_found], and at the position of
    every registered one the answer of that parent's [HandleChildren], run
    in the state the engine has reached by then. *)
Theorem C5_parent_not_found t ctx input req s :
  json_Unmarshal_ToolKit input = inl req ->
  (exists parentReq, parentReq ∈ ToolKit_ToolKitParents req /\
     Toolkit_parents t !! ToolKitParent_Name parentReq = None) ->
  (HandleToolKit t ctx input s).1.2 = None /\
  length (ToolKitResponse_Responses (HandleToolKit t ctx input s).1.1) =
    length (ToolKit_ToolKitParents req) /\
  forall j parentReq, ToolKit_ToolKitParents req !! j = Some parentReq ->
    ToolKitResponse_Responses (HandleToolKit t ctx input s).1.1 !! j =
    Some (match Toolkit_parents t !! ToolKitParent_Name parentReq with
          | None =>
              {| ParentResponse_Name := ToolKitParent_Name parentReq;
                 ParentResponse_ChildsResponses :=
                   [ {| ChildResponse_Name := "_parent_error";
                        ChildResponse_Response :=
                          any_error (error_ToolKitError
                            {| Code := "parent_not_found";
                               Message := "Parent toolkit '"
                                 +:+ ToolKitParent_Name parentReq +:+ "' not registered" |}) |} ] |}
          | Some parent =>
              (Parent_HandleChildren parent ctx (ToolKitParent_ToolKitChilds parentReq)
                 (processToolKit t ctx (ToolKit_take j req) s).2).1
          end).
Proof.
  intros Hdec (missing & Hin & _). rewrite (HandleToolKit_decoded _ _ _ _ _ Hdec).
  assert (ToolKit_ToolKitParents req <> []) as Hne.
  { intros Hempty. rewrite Hempty in Hin. by apply not_elem_of_nil in Hin. }
  destruct (processToolKit_entries t ctx req s Hne) as (Herr & _ & Hlen & Hall).
  repeat split; [done..|].
  intros j parentReq Hj. rewrite (Hall _ _ Hj). unfold parent_entry.
  by destruct (Toolkit_parents t !! _).
Qed.

(** C10: on the decode-failure path the response is named
    [toolkit_request_parse_error] and its one parent-entry and one
    child-entry are named [_parse_error] and [_input_error]; on every other
    path the response is named after the toolkit. *)
Theorem C10_response_name t ctx input s :
  match json_Unmarshal_ToolKit input with
  | inr _ =>
      ToolKitResponse_Name (HandleToolKit t ctx input s).1.1 = "toolkit_request_parse_error" /\
      exists pe ce,
        ToolKitResponse_Responses (HandleToolKit t ctx input s).1.1 = [pe] /\
        ParentResponse_Name pe = "_parse_error" /\
        ParentResponse_ChildsResponses pe = [ce] /\
        ChildResponse_Name ce = "_input_error"
  | inl _ =>
      ToolKitResponse_Name (HandleToolKit t ctx input s).1.1 = Toolkit_name t
  end.
Proof.
  destruct (json_Unmarshal_ToolKit input) as [req|err] eqn:Hdec.
  - rewrite (HandleToolKit_decoded _ _ _ _ _ Hdec).
    destruct (decide (ToolKit_ToolKitParents req = [])) as [Hempty|Hne].
    + by rewrite processToolKit_empty.
    + by destruct (processToolKit_entries t ctx req s Hne) as (_ & Hname & _).
  - unfold HandleToolKit, parseToolKitInput. rewrite Hdec, bind_run. cbn.
    split; [done|]. by eexists _, _.
Qed.

(** C6: when the argument payload fails to decode into the argument shape
    of a tool built by [NewChild], invoking the tool fails with the
    [ToolKitError] with code [invalid_arguments]; the handler is not called:
    the state is returned as it was found, and the outcome is the same
    whatever handler is bound. *)
Theorem C6_invalid_arguments {T} `{ArgShape T} name description
    (handler : context_Context -> T -> M (any * option error)) ctx args err s :
  shape_Unmarshal (T := T) args = inr err ->
  (exists tke,
     Child_Handle (NewChild name description handler) ctx args s =
       (any_nil, Some (error_ToolKitError tke), s) /\
     Code tke = "invalid_arguments") /\
  forall handler' : context_Context -> T -> M (any * option error),
    Child_Handle (NewChild name description handler') ctx args s =
    Child_Handle (NewChild name description handler) ctx args s.
Proof.
  intros Hdec. cbn. unfold NewChild_Handle. rewrite Hdec. split; [|done].
  by eexists.
Qed.

(** C7: when the handler bound to a requested tool fails, the entry of that
    tool carries the [ToolKitError] with code [handler_execution_error]
    whose message is the message of the handler's error; the parent still
    answers every request of the list, and every tool of the list whose
    invocation succeeds has its own result in its own entry. *)
Theorem C7_handler_failure {T} `{ArgShape T} name children ctx reqs s i req
    cname cdescription (handler : context_Context -> T -> M (any * option error))
    typedArgs result e s' :
  reqs !! i = Some req ->
  children !! ToolKitChild_Name req = Some (NewChild cname cdescription handler) ->
  shape_Unmarshal (ToolKitChild_Args req) = inl typedArgs ->
  handler ctx typedArgs (HandleChildren name children ctx (take i reqs) s).2 =
    (result, Some e, s') ->
  ParentResponse_ChildsResponses (HandleChildren name children ctx reqs s).1 !! i =
    Some {| ChildResponse_Name := ToolKitChild_Name req;
            ChildResponse_Response :=
              any_error (error_ToolKitError
                {| Code := "handler_execution_error"; Message := error_Error e |}) |} /\
  length (ParentResponse_ChildsResponses (HandleChildren name children ctx reqs s).1) =
    length reqs /\
  forall j reqj child resultj sj,
    reqs !! j = Some reqj ->
    children !! ToolKitChild_Name reqj = Some child ->
    Child_Handle child ctx (ToolKitChild_Args reqj)
      (HandleChildren name children ctx (take j reqs) s).2 = (resultj, None, sj) ->
    ParentResponse_ChildsResponses (HandleChildren name children ctx reqs s).1 !! j =
      Some {| ChildResponse_Name := ToolKitChild_Name reqj;
              ChildResponse_Response := resultj |}.
Proof.
  intros Hi Hchild Hdec Hfail.
  destruct (HandleChildren_entries name children ctx reqs s) as [Hlen Hall].
  split; [|split; [done|]].
  - rewrite (Hall _ _ Hi). unfold child_entry. rewrite Hchild. cbn.
    unfold NewChild_Handle. rewrite Hdec, bind_run, Hfail. done.
  - intros j reqj child resultj sj Hj Hchildj Hok.
    rewrite (Hall _ _ Hj). unfold child_entry. by rewrite Hchildj, Hok.
Qed.

(** C8: [New] returns a toolkit for every list of parents: it has no error
    to return, keeps the given name and touches nothing but the log.  Nil
    entries are skipped, each with the nil warning in the log; under every
    name the registry holds the last non-nil entry of that name. *)
Theorem C8_New_registry name parents s :
  exists t lines,
    New name parents s =
      (t, {| sys_log := sys_log s ++ lines; sys_world := sys_world s |}) /\
    Toolkit_name t = name /\
    length (filter (fun l => l = warn_nil_parent) lines) =
      length (filter (fun p => p = None) parents) /\
    forall k, Toolkit_parents t !! k =
              last (filter (fun p => Parent_GetName p = k) (omap id parents)).
Proof.
  destruct (New_loop_log parents ∅ s) as (lines & Hstate & Hcount).
  exists (New name parents s).1, lines. split; [|split; [|split]].
  - unfold New. rewrite bind_run. cbn. by rewrite Hstate.
  - apply New_name.
  - done.
  - intros k. apply New_lookup.
Qed.

(** C2, as amended: the manifest enumerates the registered parents, and the
    children within each parent, in the order in which the traversal of the
    registry visits them, whatever that order is; calls that traverse in the
    same order print the same text. *)
Theorem C2_manifest_in_traversal_order o t s :
  RangeOrder_ok o ->
  Toolkit_keyed t ->
  (GetToolkitDescription o t s).1 =
    render_manifest (Toolkit_name t) (manifest_blocks o t) /\
  pb_name <$> manifest_blocks o t = (range_parents o (Toolkit_parents t)).*1 /\
  (forall e, e ∈ range_parents o (Toolkit_parents t) ->
     cb_name <$> pb_children (parent_block o e) =
     (range_children o e.2 (Parent_GetChildren e.2)).*1) /\
  forall s', (GetToolkitDescription o t s').1 = (GetToolkitDescription o t s).1.
Proof.
  intros Hok Hkeyed. pose proof Hok as [Hparents Hchildren].
  split; [by apply GetToolkitDescription_render|].
  split; [|split].
  - rewrite manifest_parent_names.
    apply (keyed_names Parent_GetName (Toolkit_parents t)); [|done].
    intros k p Hp. by destruct (Hkeyed k p Hp).
  - intros [k p] Hin. rewrite parent_block_child_names. cbn [snd].
    apply (keyed_names Child_GetName (Parent_GetChildren p)); [|done].
    rewrite (Hparents (Toolkit_parents t)) in Hin. apply elem_of_map_to_list in Hin.
    by destruct (Hkeyed k p Hin).
  - intros s'. by rewrite !GetToolkitDescription_render.
Qed.

End Claims.

(** * The properties on the concrete instance *)

Section Instances.
#[local] Existing Instance demo_Runtime.
#[local] Existing Instance demo_JSON.
#[local] Existing Instance testArgs_shape.

Lemma demo_order_1_ok : RangeOrder_ok demo_order_1.
Proof. split; intros; reflexivity. Qed.

Lemma demo_order_2_ok : RangeOrder_ok demo_order_2.
Proof. split; intros; apply reverse_Permutation. Qed.

Lemma demo_parents_built p :
  Some p ∈ demo_parents -> Parent_keyed p /\ Parent_dispatches p.
Proof.
  unfold demo_parents. rewrite !elem_of_cons, elem_of_nil.
  intros [Hp|[Hp|[Hp|[Hp|[]]]]]; try discriminate; injection Hp as ->;
    (split; [apply NewParent_keyed | apply NewParent_dispatches]).
Qed.

Lemma demo_toolkit_built : Toolkit_built demo_toolkit.
Proof. apply New_built. intros p Hp. by apply demo_parents_built. Qed.

Lemma demo_toolkit_keyed : Toolkit_keyed demo_toolkit.
Proof. apply New_keyed. intros p Hp. by apply demo_parents_built. Qed.

Lemma demo_decodes r :
  r ∈ demo_requests -> json_Unmarshal_ToolKit (ToolKit_json r) = inl r.
Proof.
  unfold demo_requests. rewrite !elem_of_cons, elem_of_nil.
  intros [->|[->|[->|[->|[]]]]]; vm_compute; reflexivity.
Qed.

(** The request of [TestHandleToolKit_ParentNotFound] lists no tool under
    its unregistered category, and the response has one child-entry there. *)
Lemma C1_counterexample :
  json_Unmarshal_ToolKit (ToolKit_json demo_request_missing) = inl demo_request_missing /\
  request_shape demo_request_missing = [("non_existent_parent", [])] /\
  response_shape
    (HandleToolKit demo_toolkit_empty demo_ctx (ToolKit_json demo_request_missing)
       demo_s0).1.1 =
    [("non_existent_parent", ["_parent_error"])] /\
  response_shape
    (HandleToolKit demo_toolkit_empty demo_ctx (ToolKit_json demo_request_missing)
       demo_s0).1.1 <>
    request_shape demo_request_missing.
Proof.
  split; [vm_compute; reflexivity|].
  split; [vm_compute; reflexivity|].
  split; [vm_compute; reflexivity|].
  vm_compute. discriminate.
Qed.

Lemma C1_witness :
  Toolkit_built demo_toolkit /\
  json_Unmarshal_ToolKit (ToolKit_json demo_request_ghost) = inl demo_request_ghost /\
  response_shape
    (HandleToolKit demo_toolkit demo_ctx (ToolKit_json demo_request_ghost) demo_s0).1.1 =
  mirrored_shape demo_toolkit demo_request_ghost.
Proof.
  split; [apply demo_toolkit_built|].
  split; [vm_compute; reflexivity|].
  apply C1_response_mirrors_request; [apply demo_toolkit_built | vm_compute; reflexivity].
Defined.

(** Two traversals Go may pick print different manifests for the same
    registry, and the second one is not in ascending order of the names. *)
Lemma C2_counterexample :
  RangeOrder_ok demo_order_1 /\
  RangeOrder_ok demo_order_2 /\
  (GetToolkitDescription demo_order_1 demo_toolkit_plain demo_s0).1 <>
  (GetToolkitDescription demo_order_2 demo_toolkit_plain demo_s0).1 /\
  pb_name <$> manifest_blocks demo_order_2 demo_toolkit_plain = ["p2"; "p1"] /\
  names_sorted (pb_name <$> manifest_blocks demo_order_2 demo_toolkit_plain) = false.
Proof.
  split; [apply demo_order_1_ok|].
  split; [apply demo_order_2_ok|].
  split; [|split; vm_compute; reflexivity].
  apply String.eqb_neq. vm_compute. reflexivity.
Qed.

Lemma C2_witness :
  RangeOrder_ok demo_order_2 /\
  Toolkit_keyed demo_toolkit /\
  pb_name <$> manifest_blocks demo_order_2 demo_toolkit =
    (range_parents demo_order_2 (Toolkit_parents demo_toolkit)).*1.
Proof.
  split; [apply demo_order_2_ok|].
  split; [apply demo_toolkit_keyed|].
  apply (C2_manifest_in_traversal_order demo_order_2 demo_toolkit demo_s0
           demo_order_2_ok demo_toolkit_keyed).
Defined.

Lemma C3_witness :
  json_Unmarshal_ToolKit demo_bad_input =
    inr (error_other "unexpected end of JSON input") /\
  exists e pe ce tke,
    (HandleToolKit demo_toolkit demo_ctx demo_bad_input demo_s0).1.2 = Some e /\
    ToolKitResponse_Responses
      (HandleToolKit demo_toolkit demo_ctx demo_bad_input demo_s0).1.1 = [pe] /\
    ParentResponse_ChildsResponses pe = [ce] /\
    ChildResponse_Response ce = any_error (error_ToolKitError tke) /\
    Code tke = "invalid_input_json" /\
    sys_world (HandleToolKit demo_toolkit demo_ctx demo_bad_input demo_s0).2 =
      sys_world demo_s0 /\
    sys_log (HandleToolKit demo_toolkit demo_ctx demo_bad_input demo_s0).2 =
      sys_log demo_s0 ++ ["Error parsing toolkit input: " +:+ error_Error e].
Proof.
  split; [vm_compute; reflexivity|].
  destruct (C3_decode_failure demo_toolkit demo_ctx demo_bad_input
              (error_other "unexpected end of JSON input") demo_s0)
    as (e & pe & ce & tke & He & Hpe & Hce & Hresp & Hcode & Hworld & Hlog & _).
  - vm_compute; reflexivity.
  - exists e, pe, ce, tke. repeat split; assumption.
Defined.

Lemma C4_witness :
  json_Unmarshal_ToolKit (ToolKit_json demo_request_empty) = inl demo_request_empty /\
  ToolKit_ToolKitParents demo_request_empty = [] /\
  exists tke,
    HandleToolKit demo_toolkit demo_ctx (ToolKit_json demo_request_empty) demo_s0 =
      ({| ToolKitResponse_Name := Toolkit_name demo_toolkit;
          ToolKitResponse_Responses := [] |},
       Some (error_ToolKitError tke), demo_s0) /\
    Code tke = "no_toolkit_parents".
Proof.
  split; [vm_compute; reflexivity|].
  split; [reflexivity|].
  apply (C4_no_parents demo_toolkit demo_ctx (ToolKit_json demo_request_empty)
           demo_request_empty demo_s0); [vm_compute; reflexivity | reflexivity].
Defined.

Lemma C5_witness :
  json_Unmarshal_ToolKit (ToolKit_json demo_request_ghost) = inl demo_request_ghost /\
  Toolkit_parents demo_toolkit !! "ghost" = None /\
  (HandleToolKit demo_toolkit demo_ctx (ToolKit_json demo_request_ghost) demo_s0).1.2 = None /\
  length (ToolKitResponse_Responses
            (HandleToolKit demo_toolkit demo_ctx (ToolKit_json demo_request_ghost) demo_s0).1.1) =
    2.
Proof.
  split; [vm_compute; reflexivity|].
  split; [vm_compute; reflexivity|].
  destruct (C5_parent_not_found demo_toolkit demo_ctx (ToolKit_json demo_request_ghost)
              demo_request_ghost demo_s0) as (Herr & Hlen & _).
  - vm_compute; reflexivity.
  - exists {| ToolKitParent_Name := "ghost";
              ToolKitParent_ToolKitChilds :=
                [ {| ToolKitChild_Name := "c1a"; ToolKitChild_Args := demo_args "x" |};
                  {| ToolKitChild_Name := "c1b"; ToolKitChild_Args := demo_args "y" |} ] |}.
    split; [left | vm_compute; reflexivity].
  - split; [exact Herr | exact Hlen].
Defined.

Lemma C6_witness :
  shape_Unmarshal (T := testArgs) demo_bad_args =
    inr (error_other
           "json: cannot unmarshal number into Go struct field testArgs.val of type string") /\
  exists tke,
    Child_Handle (createTestChildFn "c1a" "r1a" false) demo_ctx demo_bad_args demo_s0 =
      (any_nil, Some (error_ToolKitError tke), demo_s0) /\
    Code tke = "invalid_arguments".
Proof.
  split; [vm_compute; reflexivity|].
  apply (C6_invalid_arguments "c1a" ("desc_" +:+ "c1a") (demo_handler "c1a" "r1a" false)
           demo_ctx demo_bad_args
           (error_other
              "json: cannot unmarshal number into Go struct field testArgs.val of type string")
           demo_s0).
  vm_compute; reflexivity.
Defined.

Lemma C7_witness :
  ParentResponse_ChildsResponses
    (HandleChildren "parent1" (Parent_GetChildren demo_parent1) demo_ctx
       demo_children_requests demo_s0).1 !! 0 =
    Some {| ChildResponse_Name := "c_err";
            ChildResponse_Response :=
              any_error (error_ToolKitError
                {| Code := "handler_execution_error"; Message := "child_err_c_err" |}) |} /\
  length (ParentResponse_ChildsResponses
            (HandleChildren "parent1" (Parent_GetChildren demo_parent1) demo_ctx
               demo_children_requests demo_s0).1) = 2.
Proof.
  destruct (C7_handler_failure "parent1" (Parent_GetChildren demo_parent1) demo_ctx
              demo_children_requests demo_s0 0
              {| ToolKitChild_Name := "c_err"; ToolKitChild_Args := demo_args "v1" |}
              "c_err" ("desc_" +:+ "c_err") (demo_handler "c_err" "" true)
              {| Val := "v1" |} any_nil (error_other "child_err_c_err")
              (demo_sys [] ["c_err"]))
    as (Hentry & Hlen & _).
  - reflexivity.
  - vm_compute; reflexivity.
  - vm_compute; reflexivity.
  - vm_compute; reflexivity.
  - split; [exact Hentry | exact Hlen].
Defined.

End Instances.

(** * Further properties of the registry *)

Section RegistryMore.
Context `{RT : Runtime} `{JS : !EncodingJSON}.

Lemma New_state name parents s :
  (New name parents s).2 = (for_range New_body parents ∅ s).2.
Proof. unfold New. by rewrite bind_run. Qed.

Lemma New_parents name parents s :
  Toolkit_parents (New name parents s).1 = (for_range New_body parents ∅ s).1.
Proof. unfold New. by rewrite bind_run. Qed.

(** X1: the registry [New] builds holds exactly the names of the non-nil
    parents it was given, and holds under every name a parent that was given
    and that bears this name. *)
Theorem New_registers_given_names name parents s :
  (forall k, is_Some (Toolkit_parents (New name parents s).1 !! k) <->
             exists p, Some p ∈ parents /\ Parent_GetName p = k) /\
  map_Forall (fun k p => Parent_GetName p = k /\ Some p ∈ parents)
             (Toolkit_parents (New name parents s).1).
Proof.
  split.
  - intros k. rewrite New_lookup. split.
    + intros [p Hp]. exists p. apply last_filter_holds in Hp as [Hname Hin].
      split; [by apply elem_of_omap_id | done].
    + intros (p & Hin & Hname).
      destruct (last (filter (fun p => Parent_GetName p = k) (omap id parents)))
        as [q|] eqn:Hlast; [by eexists|].
      apply last_None in Hlast.
      assert (p ∈ filter (fun p => Parent_GetName p = k) (omap id parents)) as Hp.
      { apply list_elem_of_filter. split; [done | by apply elem_of_omap_id]. }
      rewrite Hlast in Hp. by apply not_elem_of_nil in Hp.
  - intros k p Hp. rewrite New_lookup in Hp.
    apply last_filter_holds in Hp as [Hname Hin].
    split; [done | by apply elem_of_omap_id].
Qed.

Lemma New_body_count m p s :
  length (New_body_lines m p) + size (New_body m p s).1 = S (size m).
Proof.
  destruct p as [p|]; [|done].
  rewrite New_body_put. unfold New_body_lines.
  destruct (m !! Parent_GetName p) as [q|] eqn:Hq.
  - cbn. f_equal. by apply map_size_insert_Some.
  - cbn. by rewrite map_size_insert_None.
Qed.

Lemma New_loop_count parents m s :
  exists lines,
    (for_range New_body parents m s).2 =
      {| sys_log := sys_log s ++ lines; sys_world := sys_world s |} /\
    length lines + size (for_range New_body parents m s).1 = length parents + size m.
Proof.
  induction parents as [|p parents IH] using rev_ind.
  - exists []. rewrite app_nil_r. by destruct s.
  - destruct IH as (lines & Hstate & Hcount).
    rewrite !for_range_snoc, New_body_state, Hstate. cbn.
    exists (lines ++ New_body_lines (for_range New_body parents m s).1 p).
    split; [by rewrite app_assoc|].
    rewrite !length_app. cbn.
    pose proof (New_body_count (for_range New_body parents m s).1 p
                  {| sys_log := sys_log s ++ lines; sys_world := sys_world s |}).
    lia.
Qed.

(** X2: every parent handed to [New] is accounted for: it either adds a
    name to the registry or is reported by one line in the log (the nil
    warning, or the duplicate warning), and [New] writes nothing else. *)
Theorem New_accounts_for_every_parent name parents s :
  exists lines,
    (New name parents s).2 =
      {| sys_log := sys_log s ++ lines; sys_world := sys_world s |} /\
    length lines + size (Toolkit_parents (New name parents s).1) = length parents.
Proof.
  destruct (New_loop_count parents ∅ s) as (lines & Hstate & Hcount).
  exists lines. rewrite New_state, New_parents. split; [done|].
  rewrite map_size_empty in Hcount. lia.
Qed.

Lemma New_loop_quiet parents m s :
  Forall is_Some parents ->
  NoDup (Parent_GetName <$> omap id parents) ->
  (forall p, Some p ∈ parents -> m !! Parent_GetName p = None) ->
  (for_range New_body parents m s).2 = s /\
  size (for_range New_body parents m s).1 = size m + length parents.
Proof.
  revert m. induction parents as [|x parents IH]; intros m Hsome Hnodup Hfresh.
  { cbn. split; [done | lia]. }
  apply Forall_cons in Hsome as [[p ->] Hsome].
  cbn in Hnodup. apply NoDup_cons in Hnodup as [Hnotin Hnodup].
  assert (m !! Parent_GetName p = None) as Hp by (apply Hfresh; left).
  cbn [for_range]. rewrite bind_run.
  assert (New_body m (Some p) s = (<[Parent_GetName p := p]> m, s)) as ->.
  { unfold New_body. rewrite Hp. done. }
  cbn [fst snd].
  destruct (IH (<[Parent_GetName p := p]> m) Hsome Hnodup) as [Hstate Hsize].
  - intros q Hq. rewrite lookup_insert_ne.
    + apply Hfresh. by right.
    + intros Heq. apply Hnotin. rewrite Heq.
      apply list_elem_of_fmap. exists q. split; [done | by apply elem_of_omap_id].
  - split; [done|]. rewrite Hsize, map_size_insert_None by done. cbn. lia.
Qed.

(** X3: given only non-nil parents with pairwise different names, [New]
    registers every one of them and leaves the log and the world as they
    were. *)
Theorem New_distinct_is_silent name parents s :
  Forall is_Some parents ->
  NoDup (Parent_GetName <$> omap id parents) ->
  (New name parents s).2 = s /\
  size (Toolkit_parents (New name parents s).1) = length parents.
Proof.
  intros Hsome Hnodup. rewrite New_state, New_parents.
  destruct (New_loop_quiet parents ∅ s Hsome Hnodup) as [Hstate Hsize].
  { intros p _. apply lookup_empty. }
  split; [done|]. by rewrite Hsize, map_size_empty.
Qed.

Lemma Toolkit_eq (t1 t2 : Toolkit) :
  Toolkit_name t1 = Toolkit_name t2 ->
  (forall k, Toolkit_parents t1 !! k = Toolkit_parents t2 !! k) ->
  t1 = t2.
Proof.
  destruct t1 as [m1 n1], t2 as [m2 n2]. cbn. intros -> Hm.
  f_equal. by apply map_eq.
Qed.

(** X4: entries whose names all come again later in the list do not show
    in the registry: [New] builds the same toolkit with and without them.
    In particular, giving the same parents twice builds the same toolkit as
    giving them once. *)
Theorem New_later_entries_shadow name earlier parents s s' :
  (forall q, Some q ∈ earlier ->
     exists p, Some p ∈ parents /\ Parent_GetName p = Parent_GetName q) ->
  (New name (earlier ++ parents) s).1 = (New name parents s').1.
Proof.
  intros Hshadow. apply Toolkit_eq; [by rewrite !New_name|].
  intros k. rewrite !New_lookup, omap_app, filter_app, last_app.
  destruct (last (filter (fun p => Parent_GetName p = k) (omap id parents)))
    as [p|] eqn:Hlast; [done|].
  apply last_None in Hlast.
  destruct (last (filter (fun p => Parent_GetName p = k) (omap id earlier)))
    as [q|] eqn:Hq; [|done].
  apply last_filter_holds in Hq as [Hname Hin].
  apply elem_of_omap_id in Hin.
  destruct (Hshadow q Hin) as (p & Hp & Hpq).
  assert (p ∈ filter (fun p => Parent_GetName p = k) (omap id parents)) as Hpin.
  { apply list_elem_of_filter. split; [congruence | by apply elem_of_omap_id]. }
  rewrite Hlast in Hpin. by apply not_elem_of_nil in Hpin.
Qed.

Lemma filter_none {A} (P : A -> Prop) `{forall x, Decision (P x)} (l : list A) :
  (forall y, y ∈ l -> ~ P y) -> filter P l = [].
Proof.
  induction l as [|x l IH]; intros Hall; [done|].
  rewrite filter_cons. case_decide as Hx.
  - exfalso. apply (Hall x); [left | done].
  - apply IH. intros y Hy. apply Hall. by right.
Qed.

Lemma filter_name_short {A} (nm : A -> string) (l : list A) k :
  NoDup (nm <$> l) -> length (filter (fun p => nm p = k) l) <= 1.
Proof.
  induction l as [|x l IH]; intros Hnodup; [cbn; lia|].
  cbn in Hnodup. apply NoDup_cons in Hnodup as [Hnotin Hnodup].
  rewrite filter_cons. case_decide as Hx; [|by apply IH].
  assert (filter (fun p => nm p = k) l = []) as ->; [|cbn; lia].
  apply filter_none. intros y Hy Hyk.
  apply Hnotin. rewrite Hx, <- Hyk. by apply list_elem_of_fmap_2.
Qed.

Lemma Permutation_short {A} (l1 l2 : list A) :
  l1 ≡ₚ l2 -> length l1 <= 1 -> l1 = l2.
Proof.
  intros Hperm Hlen. destruct l1 as [|x [|y l1]]; cbn in Hlen; [| |lia].
  - by apply Permutation_nil_l in Hperm.
  - by apply Permutation_singleton_l in Hperm.
Qed.

(** X5: when the non-nil parents have pairwise different names, the order
    in which they are given to [New] does not matter: any rearrangement
    of the list builds the same toolkit. *)
Theorem New_order_irrelevant name parents parents' s s' :
  NoDup (Parent_GetName <$> omap id parents) ->
  parents ≡ₚ parents' ->
  (New name parents s).1 = (New name parents' s').1.
Proof.
  intros Hnodup Hperm. apply Toolkit_eq; [by rewrite !New_name|].
  intros k. rewrite !New_lookup. f_equal.
  apply Permutation_short; [|by apply filter_name_short].
  by rewrite Hperm.
Qed.

End RegistryMore.

(** * Further properties of the schema export and the manifest *)

Section ManifestMore.
Context `{RT : Runtime} `{JS : !EncodingJSON}.

(** X6: [GetToolkitSchema] answers every provider name with the schema it
    answers [anthropic] with, an object schema; for [anthropic] the state is
    left as it was, for any other name the log gains one warning naming the
    provider and the world is left as it was. *)
Theorem GetToolkitSchema_falls_back (shape : ArgShape ToolKit) t provider s :
  (GetToolkitSchema shape t provider s).1 = (GetToolkitSchema shape t "anthropic" s).1 /\
  (exists sch, (GetToolkitSchema shape t provider s).1 = any_Schema sch /\
               Schema_Type sch = "object") /\
  (GetToolkitSchema shape t "anthropic" s).2 = s /\
  (provider <> "anthropic" ->
   (GetToolkitSchema shape t provider s).2 =
     {| sys_log := sys_log s ++ ["Warning: Unsupported schema provider '" +:+ provider
                                   +:+ "', defaulting to Anthropic schema"];
        sys_world := sys_world s |}).
Proof.
  assert (GetToolkitSchema shape t "anthropic" s = (GetToolKitSchemaForAnthropic shape, s))
    as Hanthropic by reflexivity.
  rewrite Hanthropic. unfold GetToolkitSchema.
  destruct (String.eqb provider "anthropic") eqn:Hp.
  - apply String.eqb_eq in Hp. subst provider.
    repeat split; [by eexists | done].
  - rewrite bind_run. cbn [ret fst snd log_Print].
    repeat split; by eexists.
Qed.

Lemma child_body_state parent sb entry s :
  (GetToolkitDescription_child parent sb entry s).2 =
  {| sys_log := sys_log s ++
       (if marshal_fails entry.2
        then ["Error marshaling schema for " +:+ Parent_GetName parent +:+ "."
                +:+ Child_GetName entry.2 +:+ ": "
                +:+ match json_Marshal (Child_GetInputSchema entry.2) with
                    | inr err => error_Error err
                    | inl _ => ""
                    end]
        else []);
     sys_world := sys_world s |}.
Proof.
  unfold GetToolkitDescription_child, marshal_fails. cbn.
  destruct (json_Marshal _); [|by rewrite bind_run].
  cbn. rewrite app_nil_r. by destruct s.
Qed.

Lemma children_loop_state parent entries sb s :
  exists lines,
    (for_range (GetToolkitDescription_child parent) entries sb s).2 =
      {| sys_log := sys_log s ++ lines; sys_world := sys_world s |} /\
    length lines =
      length (filter (fun c : string * Child => marshal_fails c.2 = true) entries).
Proof.
  induction entries as [|e entries IH] using rev_ind.
  - exists []. rewrite app_nil_r. by destruct s.
  - destruct IH as (lines & Hstate & Hlen).
    rewrite for_range_snoc, child_body_state, Hstate. cbn [sys_log sys_world].
    eexists. split; [by rewrite <- app_assoc|].
    rewrite filter_app, !length_app, Hlen. f_equal.
    rewrite filter_cons.
    destruct (marshal_fails e.2); case_decide; done.
Qed.

Lemma parent_body_state o sb entry s :
  exists lines,
    (GetToolkitDescription_parent o sb entry s).2 =
      {| sys_log := sys_log s ++ lines; sys_world := sys_world s |} /\
    (RangeOrder_ok o ->
     length lines =
       length (filter (fun c : string * Child => marshal_fails c.2 = true)
                      (map_to_list (Parent_GetChildren entry.2)))).
Proof.
  unfold GetToolkitDescription_parent. rewrite bind_run. cbn [ret snd].
  destruct (Nat.ltb 0 (size (Parent_GetChildren entry.2))) eqn:Hsize.
  - rewrite bind_run. cbn [ret snd].
    destruct (children_loop_state entry.2
                (range_children o entry.2 (Parent_GetChildren entry.2))
                (sb +:+ parent_line (Parent_GetName entry.2)
                                    (Parent_GetDescription entry.2)) s)
      as (lines & Hstate & Hlen).
    exists lines. split; [done|]. intros [_ Hok]. rewrite Hlen.
    by rewrite (Hok entry.2 (Parent_GetChildren entry.2)).
  - exists []. split; [rewrite app_nil_r; by destruct s|]. intros _.
    apply Nat.ltb_ge in Hsize.
    assert (Parent_GetChildren entry.2 = ∅) as ->.
    { apply map_size_empty_iff. lia. }
    by rewrite map_to_list_empty.
Qed.

Lemma sum_list_app (l1 l2 : list nat) :
  sum_list (l1 ++ l2) = sum_list l1 + sum_list l2.
Proof. induction l1 as [|x l1 IH]; cbn; [done|]. rewrite IH. lia. Qed.

Lemma parents_loop_state o entries sb s :
  exists lines,
    (for_range (GetToolkitDescription_parent o) entries sb s).2 =
      {| sys_log := sys_log s ++ lines; sys_world := sys_world s |} /\
    (RangeOrder_ok o ->
     length lines =
       sum_list ((fun e : string * Parent =>
                    length (filter (fun c : string * Child => marshal_fails c.2 = true)
                                   (map_to_list (Parent_GetChildren e.2))))
                   <$> entries)).
Proof.
  induction entries as [|e entries IH] using rev_ind.
  - exists []. rewrite app_nil_r. split; [by destruct s | done].
  - destruct IH as (lines & Hstate & Hlen).
    rewrite for_range_snoc.
    destruct (parent_body_state o
                (for_range (GetToolkitDescription_parent o) entries sb s).1 e
                (for_range (GetToolkitDescription_parent o) entries sb s).2)
      as (lines' & Hstate' & Hlen').
    rewrite Hstate', Hstate. cbn [sys_log sys_world].
    exists (lines ++ lines'). split; [by rewrite app_assoc|].
    intros Hok. rewrite length_app, fmap_app, sum_list_app, Hlen, Hlen' by done.
    cbn. lia.
Qed.

Lemma sum_list_Permutation (l1 l2 : list nat) :
  l1 ≡ₚ l2 -> sum_list l1 = sum_list l2.
Proof. induction 1; cbn; lia. Qed.

(** X7: [GetToolkitDescription] never touches the world; it writes to the
    log one line per registered child whose schema does not marshal, and
    nothing else, so that it leaves the state as it was when every schema
    marshals. *)
Theorem GetToolkitDescription_state o t s :
  RangeOrder_ok o ->
  exists lines,
    (GetToolkitDescription o t s).2 =
      {| sys_log := sys_log s ++ lines; sys_world := sys_world s |} /\
    length lines = marshal_failures t /\
    (marshal_failures t = 0 -> (GetToolkitDescription o t s).2 = s).
Proof.
  intros Hok. unfold GetToolkitDescription. rewrite bind_run. cbn [ret snd].
  match goal with
  | |- context [for_range _ ?l ?sb s] =>
      destruct (parents_loop_state o l sb s) as (lines & Hstate & Hlen)
  end.
  exists lines. split; [done|].
  assert (length lines = marshal_failures t) as Hcount.
  { rewrite Hlen by done. unfold marshal_failures.
    apply sum_list_Permutation. destruct Hok as [Hparents _].
    by rewrite (Hparents (Toolkit_parents t)). }
  split; [done|]. intros Hzero. rewrite Hstate.
  rewrite Hzero in Hcount. apply nil_length_inv in Hcount. subst lines.
  rewrite app_nil_r. by destruct s.
Qed.

(** X8: for a registry without parents the manifest is the three header
    lines followed by the closing tag, and the state is left as it was. *)
Theorem GetToolkitDescription_empty o t s :
  RangeOrder_ok o ->
  Toolkit_parents t = ∅ ->
  GetToolkitDescription o t s = (manifest_header (Toolkit_name t) +:+ "</toolkit>", s).
Proof.
  intros [Hparents _] Hempty. unfold GetToolkitDescription.
  specialize (Hparents (Toolkit_parents t)).
  rewrite Hempty, map_to_list_empty in Hparents.
  apply Permutation_nil_r in Hparents. rewrite Hempty, Hparents. cbn [for_range].
  rewrite bind_run. cbn [ret fst snd]. unfold manifest_header.
  by rewrite !append_assoc.
Qed.

End ManifestMore.

Section ManifestContains.
Context `{RT : Runtime} `{JS : !EncodingJSON}.

Lemma append_nil_r (a : string) : a +:+ "" = a.
Proof.
  induction a as [|x a IH]; [done|].
  change (String x (a +:+ "") = String x a). by rewrite IH.
Qed.

Lemma occurs_in_refl x : occurs_in x x.
Proof. exists "", "". by rewrite append_nil_r. Qed.

Lemma occurs_in_app_l x a b : occurs_in x a -> occurs_in x (a +:+ b).
Proof.
  intros (pre & post & ->). exists pre, (post +:+ b). by rewrite !append_assoc.
Qed.

Lemma occurs_in_app_r x a b : occurs_in x b -> occurs_in x (a +:+ b).
Proof.
  intros (pre & post & ->). exists (a +:+ pre), post. by rewrite !append_assoc.
Qed.

Lemma occurs_in_trans x y z : occurs_in x y -> occurs_in y z -> occurs_in x z.
Proof.
  intros Hxy (pre & post & ->). by apply occurs_in_app_r, occurs_in_app_l.
Qed.

Lemma occurs_in_strcat x y l : y ∈ l -> occurs_in x y -> occurs_in x (strcat l).
Proof.
  intros Hy Hxy. induction l as [|z l IH]; [by apply not_elem_of_nil in Hy|].
  cbn. apply elem_of_cons in Hy as [->|Hy].
  - by apply occurs_in_app_l.
  - by apply occurs_in_app_r, IH.
Qed.

(** A fold that only ever appends to its accumulator. *)
Lemma foldl_appends {A} (f : string -> A -> string) (g : A -> string) l sb :
  (forall sb b, f sb b = sb +:+ g b) ->
  foldl f sb l = sb +:+ strcat (g <$> l).
Proof.
  intros Hf. revert sb. induction l as [|b l IH]; intros sb; cbn.
  - by rewrite append_nil_r.
  - by rewrite IH, Hf, append_assoc.
Qed.

Lemma render_parent_appends sb b : render_parent sb b = sb +:+ parent_text b.
Proof.
  unfold render_parent, parent_text.
  rewrite (foldl_appends render_child child_text) by done.
  by rewrite !append_assoc.
Qed.

Lemma render_manifest_text name blocks :
  render_manifest name blocks =
  manifest_header name +:+ strcat (parent_text <$> blocks) +:+ "</toolkit>".
Proof.
  unfold render_manifest, manifest_header.
  rewrite (foldl_appends render_parent parent_text) by apply render_parent_appends.
  cbn [String.append]. by rewrite !append_assoc.
Qed.

(** X9: the manifest begins with the line naming the toolkit and ends with
    the closing tag; for every registered parent it contains a block that
    begins with the line of that parent, ends with the closing tag of the
    parent and the note, and has in between the entry of every child of that
    parent, with the text of the child's schema. *)
Theorem GetToolkitDescription_contains o t s :
  RangeOrder_ok o ->
  (exists rest, (GetToolkitDescription o t s).1 = toolkit_line (Toolkit_name t) +:+ rest) /\
  (exists front, (GetToolkitDescription o t s).1 = front +:+ "</toolkit>") /\
  forall k p, Toolkit_parents t !! k = Some p ->
    exists body,
      occurs_in (parent_line (Parent_GetName p) (Parent_GetDescription p)
                   +:+ body +:+ "</parent>" +:+ nl +:+ note_line)
                (GetToolkitDescription o t s).1 /\
      forall kc c, Parent_GetChildren p !! kc = Some c ->
        occurs_in (child_line (Child_GetName c) (Child_GetDescription c)
                     (schema_text (Child_GetInputSchema c)))
                  body.
Proof.
  intros Hok. pose proof Hok as [Hparents Hchildren].
  rewrite GetToolkitDescription_render, render_manifest_text by done.
  split; [|split].
  - unfold manifest_header. eexists. by rewrite !append_assoc.
  - eexists. by rewrite <- append_assoc.
  - intros k p Hp.
    exists (strcat (child_text <$> pb_children (parent_block o (k, p)))).
    split.
    + apply occurs_in_app_r, occurs_in_app_l.
      apply (occurs_in_strcat _ (parent_text (parent_block o (k, p)))).
      * apply list_elem_of_fmap_2. unfold manifest_blocks.
        apply list_elem_of_fmap_2. rewrite (Hparents (Toolkit_parents t)).
        by apply elem_of_map_to_list.
      * apply occurs_in_refl.
    + intros kc c Hc.
      apply (occurs_in_strcat _ (child_text (child_block (kc, c)))).
      * apply list_elem_of_fmap_2. cbn. apply list_elem_of_fmap_2.
        rewrite (Hchildren p (Parent_GetChildren p)).
        by apply elem_of_map_to_list.
      * apply occurs_in_refl.
Qed.

End ManifestContains.

(** * Further properties of request processing *)

Section DispatchMore.
Context `{RT : Runtime} `{JS : !EncodingJSON}.

(** One turn of the loop, as the entry it appends and the state it leaves;
    the state does not depend on the response built so far. *)
Lemma processToolKit_body_run t ctx tl tl0 parentReq s :
  processToolKit_body t ctx tl parentReq s =
  (ToolKitResponse_AddResponse tl (parent_entry t ctx parentReq s),
   (processToolKit_body t ctx tl0 parentReq s).2).
Proof.
  unfold processToolKit_body, parent_entry.
  destruct (Toolkit_parents t !! _) as [parent|]; rewrite !bind_run; [|done].
  by destruct (Parent_HandleChildren parent ctx _ s).
Qed.

Lemma processToolKit_loop_run t ctx reqs tl name s :
  for_range (processToolKit_body t ctx) reqs tl s =
  ({| ToolKitResponse_Name := ToolKitResponse_Name tl;
      ToolKitResponse_Responses :=
        ToolKitResponse_Responses tl ++
        ToolKitResponse_Responses
          (for_range (processToolKit_body t ctx) reqs
             {| ToolKitResponse_Name := name; ToolKitResponse_Responses := [] |} s).1 |},
   (for_range (processToolKit_body t ctx) reqs
      {| ToolKitResponse_Name := name; ToolKitResponse_Responses := [] |} s).2).
Proof.
  revert tl s. induction reqs as [|r reqs IH]; intros tl s.
  { cbn. rewrite app_nil_r. by destruct tl. }
  cbn [for_range]. rewrite !bind_run.
  rewrite (processToolKit_body_run t ctx tl tl r s).
  rewrite (processToolKit_body_run t ctx
             {| ToolKitResponse_Name := name; ToolKitResponse_Responses := [] |} tl r s).
  cbn [fst snd]. rewrite (IH (ToolKitResponse_AddResponse tl _)).
  rewrite (IH (ToolKitResponse_AddResponse
                 {| ToolKitResponse_Name := name; ToolKitResponse_Responses := [] |} _)).
  cbn. by rewrite <- app_assoc.
Qed.

(** What [processToolKit] returns, by the loop run on an empty response. *)
Lemma processToolKit_run t ctx req s :
  processToolKit t ctx req s =
  ({| ToolKitResponse_Name := Toolkit_name t;
      ToolKitResponse_Responses :=
        ToolKitResponse_Responses
          (for_range (processToolKit_body t ctx) (ToolKit_ToolKitParents req)
             {| ToolKitResponse_Name := Toolkit_name t;
                ToolKitResponse_Responses := [] |} s).1 |},
   (if Nat.eqb (length (ToolKit_ToolKitParents req)) 0
    then Some (NewError "no_toolkit_parents" "No toolkit parents specified in the request")
    else None),
   (for_range (processToolKit_body t ctx) (ToolKit_ToolKitParents req)
      {| ToolKitResponse_Name := Toolkit_name t;
         ToolKitResponse_Responses := [] |} s).2).
Proof.
  unfold processToolKit, GetToolkitName.
  destruct (ToolKit_ToolKitParents req) as [|r reqs] eqn:Hreqs; [done|].
  cbn [length Nat.eqb]. rewrite bind_run. cbn [ret].
  rewrite (processToolKit_loop_run t ctx (r :: reqs) _ (Toolkit_name t) s) at 1.
  done.
Qed.

(** X10: processing the categories of one request followed by those of
    another gives the entries of the first request followed by the entries
    the second request gets in the state the first one left, and leaves the
    state the second one leaves from there; the call reports an error
    exactly when there is no category at all. *)
Theorem processToolKit_append t ctx name reqs1 reqs2 s :
  let first := processToolKit t ctx (ToolKit_of name reqs1) s in
  let second := processToolKit t ctx (ToolKit_of name reqs2) first.2 in
  let both := processToolKit t ctx (ToolKit_of name (reqs1 ++ reqs2)) s in
  ToolKitResponse_Responses both.1.1 =
    ToolKitResponse_Responses first.1.1 ++ ToolKitResponse_Responses second.1.1 /\
  both.2 = second.2 /\
  (both.1.2 = None <-> reqs1 ++ reqs2 <> []).
Proof.
  cbn zeta. rewrite !processToolKit_run. cbn [fst snd ToolKit_of ToolKit_ToolKitParents
    ToolKitResponse_Responses].
  rewrite for_range_app.
  rewrite (processToolKit_loop_run t ctx reqs2 _ (Toolkit_name t)).
  cbn [fst snd ToolKitResponse_Responses]. split; [done|]. split; [done|].
  destruct (reqs1 ++ reqs2); cbn; split; done.
Qed.

Lemma for_range_ext {A B} (body1 body2 : B -> A -> M B) l acc s :
  (forall acc s x, x ∈ l -> body1 acc x s = body2 acc x s) ->
  for_range body1 l acc s = for_range body2 l acc s.
Proof.
  revert acc s. induction l as [|x l IH]; intros acc s Hext; [done|].
  cbn [for_range]. rewrite !bind_run, (Hext acc s x) by left.
  apply IH. intros acc' s' y Hy. apply Hext. by right.
Qed.

(** X11: the answer to a payload depends on the registry only through the
    name of the toolkit and the parents registered under the names the
    request lists: two toolkits of the same name that agree on these names
    answer alike and leave the same state, whatever else they hold. *)
Theorem HandleToolKit_only_reads_requested t1 t2 ctx input s :
  Toolkit_name t1 = Toolkit_name t2 ->
  (forall req parentReq,
     json_Unmarshal_ToolKit input = inl req ->
     parentReq ∈ ToolKit_ToolKitParents req ->
     Toolkit_parents t1 !! ToolKitParent_Name parentReq =
     Toolkit_parents t2 !! ToolKitParent_Name parentReq) ->
  HandleToolKit t1 ctx input s = HandleToolKit t2 ctx input s.
Proof.
  intros Hname Hagree. unfold HandleToolKit, parseToolKitInput.
  destruct (json_Unmarshal_ToolKit input) as [req|err] eqn:Hdec; [|done].
  rewrite !processToolKit_run, Hname.
  rewrite (for_range_ext (processToolKit_body t1 ctx) (processToolKit_body t2 ctx)); [done|].
  intros acc s' parentReq Hin. unfold processToolKit_body.
  by rewrite (Hagree req parentReq).
Qed.

Lemma processToolKit_loop_unregistered t ctx reqs tl s :
  (forall parentReq, parentReq ∈ reqs ->
     Toolkit_parents t !! ToolKitParent_Name parentReq = None) ->
  for_range (processToolKit_body t ctx) reqs tl s =
  ({| ToolKitResponse_Name := ToolKitResponse_Name tl;
      ToolKitResponse_Responses :=
        ToolKitResponse_Responses tl ++ (parent_not_found_response <$> reqs) |},
   {| sys_log := sys_log s ++ (parent_not_found_line <$> reqs);
      sys_world := sys_world s |}).
Proof.
  revert tl s. induction reqs as [|r reqs IH]; intros tl s Hnone.
  { cbn. rewrite !app_nil_r. by destruct tl, s. }
  assert (processToolKit_body t ctx tl r s =
          (ToolKitResponse_AddResponse tl (parent_not_found_response r),
           {| sys_log := sys_log s ++ [parent_not_found_line r];
              sys_world := sys_world s |})) as Hbody.
  { unfold processToolKit_body. rewrite (Hnone r) by left. by rewrite bind_run. }
  cbn [for_range]. rewrite bind_run, Hbody. cbn [fst snd].
  rewrite IH by (intros p Hp; apply Hnone; by right).
  cbn. by rewrite <- !app_assoc.
Qed.

(** X12: a request that names only categories the registry does not hold
    is answered with one [parent_not_found] entry per category, in request
    order, and a nil error; the log gains one line per category and the
    world is left as it was. *)
Theorem HandleToolKit_all_unregistered t ctx input req s :
  json_Unmarshal_ToolKit input = inl req ->
  ToolKit_ToolKitParents req <> [] ->
  (forall parentReq, parentReq ∈ ToolKit_ToolKitParents req ->
     Toolkit_parents t !! ToolKitParent_Name parentReq = None) ->
  HandleToolKit t ctx input s =
  ({| ToolKitResponse_Name := Toolkit_name t;
      ToolKitResponse_Responses :=
        parent_not_found_response <$> ToolKit_ToolKitParents req |},
   None,
   {| sys_log := sys_log s ++ (parent_not_found_line <$> ToolKit_ToolKitParents req);
      sys_world := sys_world s |}).
Proof.
  intros Hdec Hne Hnone. unfold HandleToolKit, parseToolKitInput. rewrite Hdec.
  rewrite processToolKit_run, processToolKit_loop_unregistered by done.
  cbn. by destruct (ToolKit_ToolKitParents req).
Qed.

(** X13: [HandleToolKit] returns a nil error exactly when the payload
    decodes to a request that lists a category; whenever it returns an error
    nothing was dispatched: the response has at most the one synthetic
    entry of the decoding failure and the world is left as it was. *)
Theorem HandleToolKit_error_iff t ctx input s :
  ((HandleToolKit t ctx input s).1.2 = None <->
   exists req, json_Unmarshal_ToolKit input = inl req /\ ToolKit_ToolKitParents req <> []) /\
  ((HandleToolKit t ctx input s).1.2 <> None ->
   sys_world (HandleToolKit t ctx input s).2 = sys_world s /\
   length (ToolKitResponse_Responses (HandleToolKit t ctx input s).1.1) <= 1).
Proof.
  unfold HandleToolKit, parseToolKitInput.
  destruct (json_Unmarshal_ToolKit input) as [req|err] eqn:Hdec.
  - rewrite processToolKit_run. cbn [fst snd].
    destruct (ToolKit_ToolKitParents req) as [|r reqs] eqn:Hreqs; cbn.
    + split; [|intros _; split; [done | lia]].
      split; [done|]. intros (req' & Hreq' & Hne). congruence.
    + split; [|done]. split; [|done]. intros _. exists req.
      split; [done|]. by rewrite Hreqs.
  - rewrite bind_run. cbn. split; [|intros _; split; [done | lia]].
    split; [done|]. by intros (req & Hreq & _).
Qed.

End DispatchMore.

(** * Properties of the tools *)

Section ToolsMore.
Context `{RT : Runtime} `{SYS : !OS}.

Lemma eqb_empty_false (a : string) : a <> "" -> String.eqb a "" = false.
Proof. intros Ha. by apply String.eqb_neq. Qed.

(** X14: [SearchWeb] fails exactly on the empty query, and then with the
    error [query_required] that the response repeats; its [Success] flag
    is set exactly when the error is nil, and then the response has two
    results, each with a [url] and a [title] in which the query occurs.  It
    writes one line to the log and leaves the world as it was. *)
Theorem SearchWeb_behaviour ctx args s :
  (SearchWeb ctx args s).2 =
    {| sys_log := sys_log s ++ ["Executing Search Web with query: "
                                  +:+ SearchWebArgs_Query args];
       sys_world := sys_world s |} /\
  ((SearchWeb ctx args s).1.2 = None <-> SearchWebArgs_Query args <> "") /\
  (SearchWebResponse_Success (SearchWeb ctx args s).1.1 = true <->
   (SearchWeb ctx args s).1.2 = None) /\
  ((SearchWeb ctx args s).1.2 = None ->
   exists r1 r2,
     SearchWebResponse_Results (SearchWeb ctx args s).1.1 = Some [r1; r2] /\
     SearchWebResponse_Error (SearchWeb ctx args s).1.1 = "" /\
     forall r, r ∈ [r1; r2] ->
       is_Some (r !! "url") /\
       exists title, r !! "title" = Some title /\
                     occurs_in (SearchWebArgs_Query args) title) /\
  (forall e, (SearchWeb ctx args s).1.2 = Some e ->
     e = errors_New "query_required" /\
     SearchWebResponse_Error (SearchWeb ctx args s).1.1 = error_Error e /\
     SearchWebResponse_Results (SearchWeb ctx args s).1.1 = None).
Proof.
  unfold SearchWeb. rewrite bind_run. cbn [log_Print fst snd].
  destruct (String.eqb (SearchWebArgs_Query args) "") eqn:Hq; cbn.
  - apply String.eqb_eq in Hq. repeat split; try done; by simplify_eq.
  - apply String.eqb_neq in Hq. repeat split; try done.
    eexists _, _. split; [done|]. split; [done|].
    intros r Hr. rewrite !elem_of_cons, elem_of_nil in Hr.
    destruct Hr as [->|[->|[]]].
    + split; [by eexists|]. eexists. split; [done|].
      by eexists "Example Result 1 for '", "'".
    + split; [by eexists|]. eexists. split; [done|].
      by eexists "Example Result 2 about '", "'".
Qed.

(** X15: [FetchURLContent] fails exactly on the empty URL, and then with
    the error [url_required] that the response repeats; its [Success] flag
    is set exactly when the error is nil, and then the content is a page in
    which the URL occurs.  It writes one line to the log and leaves the
    world as it was. *)
Theorem FetchURLContent_behaviour ctx args s :
  (FetchURLContent ctx args s).2 =
    {| sys_log := sys_log s ++ ["Executing Fetch URL Content for URL: "
                                  +:+ FetchURLArgs_URL args];
       sys_world := sys_world s |} /\
  ((FetchURLContent ctx args s).1.2 = None <-> FetchURLArgs_URL args <> "") /\
  (FetchURLResponse_Success (FetchURLContent ctx args s).1.1 = true <->
   (FetchURLContent ctx args s).1.2 = None) /\
  ((FetchURLContent ctx args s).1.2 = None ->
   FetchURLResponse_Error (FetchURLContent ctx args s).1.1 = "" /\
   occurs_in (FetchURLArgs_URL args)
             (FetchURLResponse_Content (FetchURLContent ctx args s).1.1)) /\
  (forall e, (FetchURLContent ctx args s).1.2 = Some e ->
     e = errors_New "url_required" /\
     FetchURLResponse_Error (FetchURLContent ctx args s).1.1 = error_Error e /\
     FetchURLResponse_Content (FetchURLContent ctx args s).1.1 = "").
Proof.
  unfold FetchURLContent. rewrite bind_run. cbn [log_Print fst snd].
  destruct (String.eqb (FetchURLArgs_URL args) "") eqn:Hq; cbn.
  - apply String.eqb_eq in Hq. repeat split; try done; by simplify_eq.
  - apply String.eqb_neq in Hq. repeat split; try done.
    by eexists "<html><body><h1>Mock Content for ", _.
Qed.

(** X16: [LogThinking] and [LogResponse] succeed on every input, the empty
    text included: the response says success, the error is nil, the log
    gains two lines, the first announcing the call, and the world is left
    as it was. *)
Theorem response_tools_never_fail ctx s :
  (forall args,
     (LogThinking ctx args s).1 =
       ({| ModelThinking_Success := true; ModelThinking_Error := "" |}, None) /\
     exists line,
       (LogThinking ctx args s).2 =
         {| sys_log := sys_log s ++ ["Executing Model Thinking"; line];
            sys_world := sys_world s |} /\
       (ModelThinkingArgs_Thinking args <> "" ->
        occurs_in (ModelThinkingArgs_Thinking args) line)) /\
  (forall args,
     (LogResponse ctx args s).1 =
       ({| ModelResponse_Success := true; ModelResponse_Error := "" |}, None) /\
     exists line,
       (LogResponse ctx args s).2 =
         {| sys_log := sys_log s ++ ["Executing Model Response."; line];
            sys_world := sys_world s |} /\
       (ModelResponseArgs_Response args <> "" ->
        occurs_in (ModelResponseArgs_Response args) line)).
Proof.
  split; intros args.
  - unfold LogThinking. rewrite bind_run. cbn [log_Print fst snd].
    destruct (String.eqb (ModelThinkingArgs_Thinking args) "") eqn:Hq;
      rewrite bind_run; cbn; (split; [done|]); eexists;
      (split; [by rewrite <- app_assoc|]).
    + apply String.eqb_eq in Hq. by intros [].
    + intros _. by eexists ("--- MODEL THINKING START ---" +:+ nl), _.
  - unfold LogResponse. rewrite bind_run. cbn [log_Print fst snd].
    destruct (String.eqb (ModelResponseArgs_Response args) "") eqn:Hq;
      rewrite bind_run; cbn; (split; [done|]); eexists;
      (split; [by rewrite <- app_assoc|]).
    + apply String.eqb_eq in Hq. by intros [].
    + intros _. by eexists ("--- MODEL RESPONSE START ---" +:+ nl), _.
Qed.

Lemma EditFile_empty_path ctx args s :
  EditFileArgs_Path args = "" ->
  EditFile ctx args s =
  ({| EditFileResponse_Success := false; EditFileResponse_Error := "path_required" |},
   Some (errors_New "path_required"),
   {| sys_log := sys_log s ++ ["Execute Edit File, with:  {" +:+ EditFileArgs_Path args
                                 +:+ " " +:+ EditFileArgs_Content args +:+ "}"];
      sys_world := sys_world s |}).
Proof. intros Hpath. unfold EditFile. rewrite bind_run, Hpath. done. Qed.

Lemma EditFile_path ctx args s :
  EditFileArgs_Path args <> "" ->
  EditFile ctx args s =
  let w := os_WriteFile (EditFileArgs_Path args) (EditFileArgs_Content args) perm_0644
                        (sys_world s) in
  let line := "Execute Edit File, with:  {" +:+ EditFileArgs_Path args
                +:+ " " +:+ EditFileArgs_Content args +:+ "}" in
  match w.1 with
  | Some err =>
      ({| EditFileResponse_Success := false; EditFileResponse_Error := error_Error err |},
       Some err,
       {| sys_log := sys_log s ++ [line; "Execute Edit File - Error: Failed to write file "
                                           +:+ EditFileArgs_Path args +:+ ": "
                                           +:+ error_Error err];
          sys_world := w.2 |})
  | None =>
      ({| EditFileResponse_Success := true; EditFileResponse_Error := "" |}, None,
       {| sys_log := sys_log s ++ [line]; sys_world := w.2 |})
  end.
Proof.
  intros Hpath. unfold EditFile. rewrite bind_run, (eqb_empty_false _ Hpath), bind_run.
  cbn [log_Print fst snd]. unfold call_WriteFile. cbn [sys_world sys_log].
  destruct (os_WriteFile _ _ _ _) as [[err|] w]; cbn; [|done].
  by rewrite <- app_assoc.
Qed.

(** X17: [EditFile] with an empty path fails with [path_required] without
    calling the operating system; with any other path it writes the content
    to that path once, with mode 0644, and returns the error of that call as
    it is.  Its [Success] flag is set exactly when the error is nil, and on
    failure the response repeats the message of the error. *)
Theorem EditFile_behaviour ctx args s :
  (EditFileArgs_Path args = "" ->
   (EditFile ctx args s).1.2 = Some (errors_New "path_required") /\
   sys_world (EditFile ctx args s).2 = sys_world s) /\
  (EditFileArgs_Path args <> "" ->
   ((EditFile ctx args s).1.2, sys_world (EditFile ctx args s).2) =
   os_WriteFile (EditFileArgs_Path args) (EditFileArgs_Content args) perm_0644
                (sys_world s)) /\
  (EditFileResponse_Success (EditFile ctx args s).1.1 = true <->
   (EditFile ctx args s).1.2 = None) /\
  (forall e, (EditFile ctx args s).1.2 = Some e ->
     EditFileResponse_Error (EditFile ctx args s).1.1 = error_Error e).
Proof.
  destruct (decide (EditFileArgs_Path args = "")) as [Hpath|Hpath].
  - rewrite EditFile_empty_path by done. cbn.
    repeat split; try done; by intros; simplify_eq.
  - rewrite EditFile_path by done. cbn zeta.
    destruct (os_WriteFile _ _ _ _) as [[err|] w]; cbn;
      repeat split; try done; by intros; simplify_eq.
Qed.

Lemma ReadFile_empty_path ctx args s :
  ReadFileArgs_Path args = "" ->
  ReadFile ctx args s =
  ({| ReadFileResponse_Success := false; ReadFileResponse_Content := "";
      ReadFileResponse_Error := "path_required" |},
   Some (errors_New "path_required"),
   {| sys_log := sys_log s ++ ["Execute Read File, with:  {" +:+ ReadFileArgs_Path args
                                 +:+ "}"];
      sys_world := sys_world s |}).
Proof. intros Hpath. unfold ReadFile. rewrite bind_run, Hpath. done. Qed.

Lemma ReadFile_path ctx args s :
  ReadFileArgs_Path args <> "" ->
  ReadFile ctx args s =
  let r := os_ReadFile (ReadFileArgs_Path args) (sys_world s) in
  let line := "Execute Read File, with:  {" +:+ ReadFileArgs_Path args +:+ "}" in
  match r.1 with
  | inr err =>
      ({| ReadFileResponse_Success := false; ReadFileResponse_Content := "";
          ReadFileResponse_Error := error_Error err |},
       Some err,
       {| sys_log := sys_log s ++ [line; "Execute Read File - Error: Failed to read file "
                                           +:+ ReadFileArgs_Path args +:+ ": "
                                           +:+ error_Error err];
          sys_world := r.2 |})
  | inl content =>
      ({| ReadFileResponse_Success := true; ReadFileResponse_Content := content;
          ReadFileResponse_Error := "" |}, None,
       {| sys_log := sys_log s ++ [line]; sys_world := r.2 |})
  end.
Proof.
  intros Hpath. unfold ReadFile. rewrite bind_run, (eqb_empty_false _ Hpath), bind_run.
  cbn [log_Print fst snd]. unfold call_ReadFile. cbn [sys_world sys_log].
  destruct (os_ReadFile _ _) as [[content|err] w]; cbn; [done|].
  by rewrite <- app_assoc.
Qed.

(** X18: [ReadFile] with an empty path fails with [path_required] without
    calling the operating system; with any other path it reads that path
    once and returns what the call returned: the content with the
    [Success] flag and a nil error, or the error with its message in the
    response and no content. *)
Theorem ReadFile_behaviour ctx args s :
  (ReadFileArgs_Path args = "" ->
   (ReadFile ctx args s).1.2 = Some (errors_New "path_required") /\
   sys_world (ReadFile ctx args s).2 = sys_world s) /\
  (ReadFileArgs_Path args <> "" ->
   sys_world (ReadFile ctx args s).2 =
     (os_ReadFile (ReadFileArgs_Path args) (sys_world s)).2 /\
   match (os_ReadFile (ReadFileArgs_Path args) (sys_world s)).1 with
   | inl content =>
       (ReadFile ctx args s).1 =
         ({| ReadFileResponse_Success := true; ReadFileResponse_Content := content;
             ReadFileResponse_Error := "" |}, None)
   | inr err =>
       (ReadFile ctx args s).1 =
         ({| ReadFileResponse_Success := false; ReadFileResponse_Content := "";
             ReadFileResponse_Error := error_Error err |}, Some err)
   end) /\
  (ReadFileResponse_Success (ReadFile ctx args s).1.1 = true <->
   (ReadFile ctx args s).1.2 = None).
Proof.
  destruct (decide (ReadFileArgs_Path args = "")) as [Hpath|Hpath].
  - rewrite ReadFile_empty_path by done. cbn. repeat split; try done.
  - rewrite ReadFile_path by done. cbn zeta.
    destruct (os_ReadFile _ _) as [[content|err] w]; cbn; repeat split; try done.
Qed.

(** X19: on an operating system where a file that was written reads back
    with the content written, [ReadFile] after a successful [EditFile] of
    the same path returns the content that was edited in, with a nil
    error. *)
Theorem EditFile_then_ReadFile ctx path content s :
  (forall w w', os_WriteFile path content perm_0644 w = (None, w') ->
                (os_ReadFile path w').1 = inl content) ->
  (EditFile ctx {| EditFileArgs_Path := path; EditFileArgs_Content := content |} s).1.2
    = None ->
  (ReadFile ctx {| ReadFileArgs_Path := path |}
     (EditFile ctx {| EditFileArgs_Path := path; EditFileArgs_Content := content |} s).2).1
  = ({| ReadFileResponse_Success := true; ReadFileResponse_Content := content;
        ReadFileResponse_Error := "" |}, None).
Proof.
  intros Hos Hedit.
  destruct (decide (path = "")) as [Hpath|Hpath].
  { rewrite EditFile_empty_path in Hedit by done. done. }
  rewrite EditFile_path in Hedit |- * by done. cbn zeta in *. cbn [EditFileArgs_Path
    EditFileArgs_Content] in *.
  destruct (os_WriteFile path content perm_0644 (sys_world s)) as [[err|] w] eqn:Hw;
    [done|].
  cbn [fst snd] in *. rewrite ReadFile_path by done. cbn zeta.
  cbn [ReadFileArgs_Path sys_world].
  specialize (Hos _ _ Hw).
  destruct (os_ReadFile path w) as [r w']. cbn in Hos. subst r. done.
Qed.

End ToolsMore.


(** * The further properties on the concrete instances *)

Section InstancesMore.
#[local] Existing Instance demo_Runtime.
#[local] Existing Instance demo_JSON.
#[local] Existing Instance testArgs_shape.

Lemma demo_two_parents_distinct :
  NoDup (Parent_GetName <$> omap id demo_two_parents).
Proof. apply (bool_decide_unpack _). vm_compute. exact I. Qed.

Lemma New_distinct_is_silent_witness :
  Forall is_Some demo_two_parents /\
  NoDup (Parent_GetName <$> omap id demo_two_parents) /\
  (New "tk" demo_two_parents demo_s0).2 = demo_s0 /\
  size (Toolkit_parents (New "tk" demo_two_parents demo_s0).1) = 2.
Proof.
  assert (Forall is_Some demo_two_parents) as Hsome.
  { unfold demo_two_parents. repeat constructor; by eexists. }
  split; [exact Hsome|]. split; [exact demo_two_parents_distinct|].
  exact (New_distinct_is_silent "tk" demo_two_parents demo_s0 Hsome
           demo_two_parents_distinct).
Defined.

Lemma New_later_entries_shadow_witness :
  (New "tk" ([Some demo_parent1] ++ demo_parents) demo_s0).1 =
  (New "tk" demo_parents demo_s0).1.
Proof.
  apply New_later_entries_shadow. intros q Hq.
  apply list_elem_of_singleton in Hq. injection Hq as ->.
  exists demo_parent1. split; [left | reflexivity].
Defined.

Lemma New_order_irrelevant_witness :
  NoDup (Parent_GetName <$> omap id demo_two_parents) /\
  demo_two_parents ≡ₚ [Some demo_parent2; Some demo_parent1] /\
  (New "tk" demo_two_parents demo_s0).1 =
  (New "tk" [Some demo_parent2; Some demo_parent1] demo_s0).1.
Proof.
  assert (demo_two_parents ≡ₚ [Some demo_parent2; Some demo_parent1]) as Hperm.
  { apply perm_swap. }
  split; [exact demo_two_parents_distinct|]. split; [exact Hperm|].
  exact (New_order_irrelevant "tk" _ _ demo_s0 demo_s0 demo_two_parents_distinct Hperm).
Defined.

Lemma GetToolkitDescription_state_witness :
  RangeOrder_ok demo_order_2 /\
  marshal_failures demo_toolkit = 0 /\
  (GetToolkitDescription demo_order_2 demo_toolkit demo_s0).2 = demo_s0.
Proof.
  assert (marshal_failures demo_toolkit = 0) as Hzero by (vm_compute; reflexivity).
  split; [exact demo_order_2_ok|]. split; [exact Hzero|].
  destruct (GetToolkitDescription_state demo_order_2 demo_toolkit demo_s0 demo_order_2_ok)
    as (lines & _ & _ & Hquiet).
  exact (Hquiet Hzero).
Defined.

Lemma GetToolkitDescription_empty_witness :
  RangeOrder_ok demo_order_1 /\
  Toolkit_parents demo_toolkit_empty = ∅ /\
  GetToolkitDescription demo_order_1 demo_toolkit_empty demo_s0 =
    (manifest_header "test_p_notfound" +:+ "</toolkit>", demo_s0).
Proof.
  assert (Toolkit_parents demo_toolkit_empty = ∅) as Hempty by (vm_compute; reflexivity).
  split; [exact demo_order_1_ok|]. split; [exact Hempty|].
  exact (GetToolkitDescription_empty demo_order_1 demo_toolkit_empty demo_s0
           demo_order_1_ok Hempty).
Defined.

Lemma GetToolkitDescription_contains_witness :
  RangeOrder_ok demo_order_2 /\
  exists rest,
    (GetToolkitDescription demo_order_2 demo_toolkit demo_s0).1 =
    toolkit_line (Toolkit_name demo_toolkit) +:+ rest.
Proof.
  split; [exact demo_order_2_ok|].
  exact (proj1 (GetToolkitDescription_contains demo_order_2 demo_toolkit demo_s0
                  demo_order_2_ok)).
Defined.

Lemma HandleToolKit_only_reads_requested_witness :
  Toolkit_name demo_toolkit = Toolkit_name demo_toolkit_more /\
  HandleToolKit demo_toolkit demo_ctx (ToolKit_json demo_request_success) demo_s0 =
  HandleToolKit demo_toolkit_more demo_ctx (ToolKit_json demo_request_success) demo_s0.
Proof.
  split; [reflexivity|].
  apply HandleToolKit_only_reads_requested; [reflexivity|].
  intros req parentReq Hdec Hin.
  assert (req = demo_request_success) as ->.
  { rewrite demo_decodes in Hdec by (unfold demo_requests; left). congruence. }
  unfold demo_request_success in Hin. cbn in Hin.
  rewrite !elem_of_cons, elem_of_nil in Hin.
  destruct Hin as [->|[->|[]]]; vm_compute; reflexivity.
Defined.

Lemma HandleToolKit_all_unregistered_witness :
  json_Unmarshal_ToolKit (ToolKit_json demo_request_ghost) = inl demo_request_ghost /\
  (HandleToolKit demo_toolkit_empty demo_ctx (ToolKit_json demo_request_ghost) demo_s0).2 =
    {| sys_log := sys_log demo_s0 ++
         (parent_not_found_line <$> ToolKit_ToolKitParents demo_request_ghost);
       sys_world := sys_world demo_s0 |}.
Proof.
  assert (json_Unmarshal_ToolKit (ToolKit_json demo_request_ghost) = inl demo_request_ghost)
    as Hdec by (vm_compute; reflexivity).
  split; [exact Hdec|].
  rewrite (HandleToolKit_all_unregistered demo_toolkit_empty demo_ctx
             (ToolKit_json demo_request_ghost) demo_request_ghost demo_s0 Hdec).
  - reflexivity.
  - discriminate.
  - intros parentReq _. reflexivity.
Defined.

End InstancesMore.

Section InstancesFiles.
#[local] Existing Instance demo_fs_Runtime.
#[local] Existing Instance demo_OS.

Lemma EditFile_then_ReadFile_witness :
  (ReadFile demo_fs_ctx {| ReadFileArgs_Path := "test.txt" |}
     (EditFile demo_fs_ctx
        {| EditFileArgs_Path := "test.txt"; EditFileArgs_Content := "hello" |}
        demo_fs_s0).2).1
  = ({| ReadFileResponse_Success := true; ReadFileResponse_Content := "hello";
        ReadFileResponse_Error := "" |}, None).
Proof.
  apply EditFile_then_ReadFile.
  - intros w w' Hw. cbn in Hw. unfold demo_fs_WriteFile in Hw. cbn in Hw.
    injection Hw as <-. cbn. unfold demo_fs_ReadFile.
    by rewrite lookup_insert_eq.
  - vm_compute. reflexivity.
Defined.

End InstancesFiles.

(** * Properties of the conversation loop *)

Section ConversationMore.
Context `{RT : Runtime} `{JS : !EncodingJSON} `{API : !Anthropic}.

Lemma call_Println_run line s :
  call_Println line s = (tt, {| sys_log := sys_log s;
                         sys_world := fmt_Println line (sys_world s) |}).
Proof. done. Qed.

(** X21: the message that answers a tool use carries the identifier of
    that tool use; it is flagged as an error exactly when [HandleToolKit]
    returned an error or the response did not marshal, and when it is not,
    its content is the marshalled response.  Answering writes to the log
    only what [HandleToolKit] writes. *)
Theorem tool_result_message_flags c ctx ID Input s :
  exists content isError,
    (tool_result_message c ctx ID Input s).1 = ToolResultMessage ID content isError /\
    (isError = false <->
     (HandleToolKit (ClaudeClient_Toolkit c) ctx Input s).1.2 = None /\
     exists bytes,
       json_Marshal_ToolKitResponse
         (HandleToolKit (ClaudeClient_Toolkit c) ctx Input s).1.1 = inl bytes) /\
    (isError = false ->
     json_Marshal_ToolKitResponse
       (HandleToolKit (ClaudeClient_Toolkit c) ctx Input s).1.1 = inl content) /\
    sys_log (tool_result_message c ctx ID Input s).2 =
      sys_log (HandleToolKit (ClaudeClient_Toolkit c) ctx Input s).2.
Proof.
  unfold tool_result_message. rewrite bind_run.
  destruct (HandleToolKit (ClaudeClient_Toolkit c) ctx Input s) as [[resp toolErr] s'].
  cbn [fst snd].
  destruct toolErr as [toolErr|];
    [|destruct (json_Marshal_ToolKitResponse resp) as [bytes|marshalErr] eqn:Hm];
    rewrite ?bind_run; cbn; eexists _, _; (split; [done|]).
  - repeat split; try done. by intros [? _].
  - repeat split; try done. by eexists.
  - repeat split; try done. by intros [_ [? ?]].
Qed.

Lemma tool_result_message_id c ctx ID Input s :
  exists content isError,
    (tool_result_message c ctx ID Input s).1 = ToolResultMessage ID content isError.
Proof.
  unfold tool_result_message. rewrite bind_run.
  destruct (HandleToolKit (ClaudeClient_Toolkit c) ctx Input s) as [[resp toolErr] s'].
  cbn [fst snd].
  destruct toolErr as [toolErr|];
    [|destruct (json_Marshal_ToolKitResponse resp) as [bytes|marshalErr]];
    rewrite ?bind_run; cbn; by eexists _, _.
Qed.

Lemma GenerateContent_blocks_run c ctx blocks st s :
  exists results,
    turn_history (for_range (GenerateContent_block c ctx) blocks st s).1 =
      turn_history st ++ results /\
    tool_result_ids results = tool_use_ids blocks /\
    length results = length (tool_use_ids blocks) /\
    turn_toolUsedInTurn (for_range (GenerateContent_block c ctx) blocks st s).1 =
      turn_toolUsedInTurn st || existsb is_tool_use blocks /\
    turn_messageInTurn (for_range (GenerateContent_block c ctx) blocks st s).1 =
      default (turn_messageInTurn st) (last (omap block_text blocks)) /\
    turn_thinkingInTurn (for_range (GenerateContent_block c ctx) blocks st s).1 =
      default (turn_thinkingInTurn st) (last (omap block_thinking blocks)).
Proof.
  revert st s. induction blocks as [|b blocks IH]; intros st s.
  { exists []. cbn. rewrite app_nil_r, orb_false_r. done. }
  cbn [for_range]. rewrite bind_run.
  destruct (IH (GenerateContent_block c ctx st b s).1 (GenerateContent_block c ctx st b s).2)
    as (results & Hhist & Hids & Hlen & Hused & Hmsg & Hthink).
  rewrite Hhist, Hused, Hmsg, Hthink. clear Hhist Hused Hmsg Hthink IH.
  destruct b as [text|thinking|ID Name Input|shown]; cbn [GenerateContent_block].
  - exists results. cbn. repeat split; try done.
    destruct (last (omap block_text blocks)) eqn:Hl; cbn.
    + by rewrite (last_cons text), Hl.
    + by rewrite (last_cons text), Hl.
  - exists results. cbn. repeat split; try done.
    destruct (last (omap block_thinking blocks)) eqn:Hl; cbn.
    + by rewrite (last_cons thinking), Hl.
    + by rewrite (last_cons thinking), Hl.
  - rewrite !bind_run. cbn [ret fst snd turn_history turn_toolUsedInTurn
      turn_messageInTurn turn_thinkingInTurn].
    destruct (tool_result_message_id c ctx ID Input (call_Println ("Tool Used: " +:+ Name) s).2)
      as (content & isError & ->).
    exists (ToolResultMessage ID content isError :: results).
    rewrite <- app_assoc. repeat split; try done.
    + change (ID :: tool_result_ids results = ID :: tool_use_ids blocks). by f_equal.
    + change (S (length results) = S (length (tool_use_ids blocks))). by f_equal.
    + cbn. by rewrite orb_true_r.
  - rewrite !bind_run. cbn [ret fst snd]. exists results. done.
Qed.

(** X22: while it reads the blocks of a reply, the loop appends to the
    history one tool result message per tool use of the reply, in the order
    of the tool uses and under their identifiers, and nothing else; it notes
    that a tool was used exactly when the reply has a tool use, and it keeps
    the last text and the last thinking of the reply. *)
Theorem GenerateContent_answers_every_tool_use c ctx blocks history s :
  let st := {| turn_history := history; turn_toolUsedInTurn := false;
               turn_thinkingInTurn := ""; turn_messageInTurn := "" |} in
  exists results,
    turn_history (for_range (GenerateContent_block c ctx) blocks st s).1 =
      history ++ results /\
    tool_result_ids results = tool_use_ids blocks /\
    length results = length (tool_use_ids blocks) /\
    turn_toolUsedInTurn (for_range (GenerateContent_block c ctx) blocks st s).1 =
      existsb is_tool_use blocks /\
    turn_messageInTurn (for_range (GenerateContent_block c ctx) blocks st s).1 =
      last_text blocks /\
    turn_thinkingInTurn (for_range (GenerateContent_block c ctx) blocks st s).1 =
      last_thinking blocks.
Proof.
  cbn zeta. apply (GenerateContent_blocks_run c ctx blocks).
Qed.

(** One turn of the conversation, by what the model replies. *)
Lemma GenerateContent_turn c ctx turns i history s :
  GenerateContent_turns c ctx (S turns) i history s =
  let s1 := (call_Println ("--- Calling Claude API (Turn " +:+ itoa (Z.of_nat (i + 1))
                      +:+ ") ---") s).2 in
  match (call_Messages_New history s1).1 with
  | inr err =>
      ("", Some err,
       (call_Println ("Error calling Claude API: " +:+ error_Error err)
              (call_Messages_New history s1).2).2)
  | inl response =>
      let s2 :=
        (call_Println ("Output tokens: " +:+ itoa (Message_OutputTokens response))
           (call_Println ("Input tokens: " +:+ itoa (Message_InputTokens response))
              (call_Println "--- Usage ---" (call_Messages_New history s1).2).2).2).2 in
      let out := for_range (GenerateContent_block c ctx) (Message_Content response)
                   {| turn_history := history ++ [Message_ToParam response];
                      turn_toolUsedInTurn := false;
                      turn_thinkingInTurn := ""; turn_messageInTurn := "" |} s2 in
      if turn_toolUsedInTurn out.1 then
        GenerateContent_turns c ctx turns (S i) (turn_history out.1) out.2
      else
        (answer_text (turn_thinkingInTurn out.1) (turn_messageInTurn out.1), None, out.2)
  end.
Proof.
  cbn [GenerateContent_turns]. rewrite !bind_run. cbn zeta.
  destruct (call_Messages_New history _) as [[response|err] s1] eqn:Hcall; cbn [fst snd].
  - rewrite !bind_run. cbn [fst snd].
    by destruct (turn_toolUsedInTurn _).
  - by rewrite bind_run.
Qed.

Lemma GenerateContent_turns_outcome c ctx turns i history s :
  match (GenerateContent_turns c ctx turns i history s).1.2 with
  | Some e =>
      (GenerateContent_turns c ctx turns i history s).1.1 = "" /\
      exists h w, (Messages_New h w).1 = inr e
  | None =>
      exists thinking message,
        (GenerateContent_turns c ctx turns i history s).1.1 = answer_text thinking message
  end.
Proof.
  revert i history s. induction turns as [|turns IH]; intros i history s.
  { cbn. by eexists _, _. }
  rewrite GenerateContent_turn. cbn zeta.
  match goal with |- context [call_Messages_New history ?s1] => set (s1' := s1) end.
  destruct (call_Messages_New history s1') as [[response|err] s2] eqn:Hcall; cbn [fst snd].
  - match goal with |- context [for_range ?b ?l ?a ?s] => set (out := for_range b l a s) end.
    destruct (turn_toolUsedInTurn out.1); [apply IH|].
    cbn. by eexists _, _.
  - split; [done|]. exists history, (sys_world s1').
    unfold call_Messages_New in Hcall.
    destruct (Messages_New history (sys_world s1')) as [r w]. by simplify_eq.
Qed.

(** X23: [GenerateContent] returns either an answer of the form
    [Thinking: ... Message: ...] with a nil error, or the empty string with
    an error, and then the error is one the model's API returned: failures
    of the toolkit never become the error of the conversation. *)
Theorem GenerateContent_outcome c prompt s :
  match (GenerateContent c prompt s).1.2 with
  | Some e =>
      (GenerateContent c prompt s).1.1 = "" /\
      exists h w, (Messages_New h w).1 = inr e
  | None =>
      exists thinking message,
        (GenerateContent c prompt s).1.1 = answer_text thinking message
  end.
Proof. apply GenerateContent_turns_outcome. Qed.

Lemma tool_result_message_calls c calls ctx ID Input s :
  counts_model_calls c calls ->
  calls (sys_world (tool_result_message c ctx ID Input s).2) = calls (sys_world s).
Proof.
  intros (_ & Hprint & Htoolkit). unfold tool_result_message. rewrite bind_run.
  rewrite <- (Htoolkit ctx Input s).
  destruct (HandleToolKit (ClaudeClient_Toolkit c) ctx Input s) as [[resp toolErr] s'].
  cbn [fst snd].
  destruct toolErr as [toolErr|];
    [|destruct (json_Marshal_ToolKitResponse resp) as [bytes|marshalErr]];
    rewrite ?bind_run; cbn; by rewrite ?Hprint.
Qed.

Lemma GenerateContent_blocks_calls c calls ctx blocks st s :
  counts_model_calls c calls ->
  calls (sys_world (for_range (GenerateContent_block c ctx) blocks st s).2) =
  calls (sys_world s).
Proof.
  intros Hcounts. pose proof Hcounts as (_ & Hprint & _).
  apply (for_range_invariant (GenerateContent_block c ctx)
           (fun _ s' => calls (sys_world s') = calls (sys_world s))); [done|].
  intros st' s' b _ Hs'. rewrite <- Hs'.
  destruct b as [text|thinking|ID Name Input|shown]; cbn [GenerateContent_block]; try done.
  - rewrite !bind_run. cbn [ret snd].
    rewrite tool_result_message_calls by done. cbn. by rewrite Hprint.
  - rewrite !bind_run. cbn. by rewrite Hprint.
Qed.

(** The calls of the model up to the block loop of a turn that got a reply. *)
Lemma GenerateContent_reply_calls c calls history s1 response :
  counts_model_calls c calls ->
  (call_Messages_New history s1).1 = inl response ->
  calls (sys_world
           (call_Println ("Output tokens: " +:+ itoa (Message_OutputTokens response))
              (call_Println ("Input tokens: " +:+ itoa (Message_InputTokens response))
                 (call_Println "--- Usage ---"
                    (call_Messages_New history s1).2).2).2).2) =
  S (calls (sys_world s1)).
Proof.
  intros (Hcall & Hprint & _) _. cbn. rewrite !Hprint.
  unfold call_Messages_New. rewrite <- (Hcall history (sys_world s1)).
  by destruct (Messages_New history (sys_world s1)).
Qed.

Lemma GenerateContent_turns_always_tool c calls ctx turns i history s :
  (forall h w, exists response,
     (Messages_New h w).1 = inl response /\
     existsb is_tool_use (Message_Content response) = true) ->
  counts_model_calls c calls ->
  (GenerateContent_turns c ctx turns i history s).1 = (answer_text "" "", None) /\
  calls (sys_world (GenerateContent_turns c ctx turns i history s).2) =
    calls (sys_world s) + turns.
Proof.
  intros Htool Hcounts. pose proof Hcounts as (_ & Hprint & _).
  revert i history s.
  induction turns as [|turns IH]; intros i history s.
  { cbn. split; [done | lia]. }
  rewrite GenerateContent_turn. cbn zeta.
  match goal with |- context [call_Messages_New history ?s1] => set (s1' := s1) end.
  assert (calls (sys_world s1') = calls (sys_world s)) as Hs1.
  { subst s1'. cbn. by rewrite Hprint. }
  destruct (Htool history (sys_world s1')) as (response & Hresp & Huses).
  assert ((call_Messages_New history s1').1 = inl response) as Hreply.
  { unfold call_Messages_New.
    destruct (Messages_New history (sys_world s1')) as [r w]. by cbn in *. }
  pose proof (GenerateContent_reply_calls c calls history s1' response Hcounts Hreply)
    as Hcalls.
  rewrite Hreply.
  match goal with |- context [for_range ?b ?l ?a ?s2] =>
    destruct (GenerateContent_blocks_run c ctx l a s2)
      as (results & _ & _ & _ & Hused & _ & _);
    pose proof (GenerateContent_blocks_calls c calls ctx l a s2 Hcounts) as Hloop
  end.
  rewrite Hused, Huses. cbn [orb turn_toolUsedInTurn].
  match goal with |- context [GenerateContent_turns c ctx turns (S i) ?h ?s3] =>
    destruct (IH (S i) h s3) as [Hanswer Hcount]
  end.
  split; [done|]. rewrite Hcount, Hloop, Hcalls, Hs1. lia.
Qed.

(** X24: when the model asks for a tool in every reply, [GenerateContent]
    calls the model exactly five times, however the calls are counted, and
    then returns the answer with empty thinking and empty message, with a
    nil error. *)
Theorem GenerateContent_gives_up c prompt s calls :
  (forall h w, exists response,
     (Messages_New h w).1 = inl response /\
     existsb is_tool_use (Message_Content response) = true) ->
  counts_model_calls c calls ->
  (GenerateContent c prompt s).1 = (answer_text "" "", None) /\
  calls (sys_world (GenerateContent c prompt s).2) = calls (sys_world s) + 5.
Proof.
  intros Htool Hcounts. unfold GenerateContent. cbn zeta.
  apply (GenerateContent_turns_always_tool c calls); done.
Qed.

(** X25: when the first reply of the model uses no tool,
    [GenerateContent] answers with the last thinking and the last text of
    that reply, with a nil error, and has called the model exactly once,
    however the calls are counted. *)
Theorem GenerateContent_first_reply c prompt s response w calls :
  Messages_New [NewUserMessage prompt]
    (fmt_Println "--- Calling Claude API (Turn 1) ---" (sys_world s)) = (inl response, w) ->
  existsb is_tool_use (Message_Content response) = false ->
  counts_model_calls c calls ->
  (GenerateContent c prompt s).1 =
    (answer_text (last_thinking (Message_Content response))
                 (last_text (Message_Content response)), None) /\
  calls (sys_world (GenerateContent c prompt s).2) = S (calls (sys_world s)).
Proof.
  intros Hcall Hnone Hcounts. pose proof Hcounts as (_ & Hprint & _).
  unfold GenerateContent. cbn zeta.
  rewrite GenerateContent_turn. cbn zeta.
  match goal with |- context [call_Messages_New _ ?s1] => set (s1' := s1) end.
  assert (sys_world s1' =
          fmt_Println "--- Calling Claude API (Turn 1) ---" (sys_world s)) as Hs1
    by reflexivity.
  assert ((call_Messages_New [NewUserMessage prompt] s1').1 = inl response) as Hreply.
  { unfold call_Messages_New. by rewrite Hs1, Hcall. }
  pose proof (GenerateContent_reply_calls c calls _ s1' response Hcounts Hreply) as Hcalls.
  rewrite Hreply.
  match goal with |- context [for_range ?b ?l ?a ?s2] =>
    destruct (GenerateContent_blocks_run c context_Background l a s2)
      as (results & _ & _ & _ & Hused & Hmsg & Hthink);
    pose proof (GenerateContent_blocks_calls c calls context_Background l a s2 Hcounts)
      as Hloop
  end.
  rewrite Hused, Hnone, Hmsg, Hthink.
  cbn [orb fst snd turn_toolUsedInTurn turn_messageInTurn turn_thinkingInTurn].
  split; [done|].
  rewrite Hloop, Hcalls, Hs1. by rewrite Hprint.
Qed.

End ConversationMore.

Section InstancesConversation.
#[local] Existing Instance demo_Runtime.
#[local] Existing Instance demo_JSON.

Lemma HandleToolKit_empty_registry_world t ctx input s :
  Toolkit_parents t = ∅ ->
  sys_world (HandleToolKit t ctx input s).2 = sys_world s.
Proof.
  intros Hempty. unfold HandleToolKit, parseToolKitInput.
  destruct (json_Unmarshal_ToolKit input) as [req|err]; [|by rewrite bind_run].
  rewrite processToolKit_run, processToolKit_loop_unregistered; [done|].
  intros parentReq _. by rewrite Hempty.
Qed.

Lemma demo_counts reply :
  counts_model_calls (API := demo_API reply) demo_client_empty demo_calls.
Proof.
  repeat split.
  - intros h w. cbn [Messages_New demo_API snd]. unfold demo_calls.
    rewrite filter_app, length_app.
    change (length (filter (fun mark : string => mark = "api") ["api"])) with 1. lia.
  - intros ctx input s. cbn [ClaudeClient_Toolkit demo_client_empty].
    by rewrite HandleToolKit_empty_registry_world.
Qed.

Lemma GenerateContent_gives_up_witness :
  (forall h w, exists response,
     (Messages_New (Anthropic := demo_API demo_reply_tool) h w).1 = inl response /\
     existsb is_tool_use (Message_Content response) = true) /\
  (GenerateContent (API := demo_API demo_reply_tool) demo_client_empty "hello" demo_s0).1 =
    (answer_text "" "", None) /\
  demo_calls
    (sys_world (GenerateContent (API := demo_API demo_reply_tool)
                  demo_client_empty "hello" demo_s0).2) = 5.
Proof.
  assert (forall h w, exists response,
            (Messages_New (Anthropic := demo_API demo_reply_tool) h w).1 = inl response /\
            existsb is_tool_use (Message_Content response) = true) as Htool.
  { intros h w. exists demo_reply_tool. split; reflexivity. }
  split; [exact Htool|].
  exact (GenerateContent_gives_up (API := demo_API demo_reply_tool)
           demo_client_empty "hello" demo_s0 demo_calls Htool
           (demo_counts demo_reply_tool)).
Defined.

Lemma GenerateContent_first_reply_witness :
  (GenerateContent (API := demo_API demo_reply_text) demo_client_empty "hello" demo_s0).1 =
    (answer_text "plan" "done", None) /\
  demo_calls
    (sys_world (GenerateContent (API := demo_API demo_reply_text)
                  demo_client_empty "hello" demo_s0).2) = 1.
Proof.
  apply (GenerateContent_first_reply (API := demo_API demo_reply_text)
           demo_client_empty "hello" demo_s0 demo_reply_text
           (sys_world demo_s0 ++ ["api"]) demo_calls);
    [reflexivity | reflexivity | apply demo_counts].
Defined.

End InstancesConversation.

(** * The manifest as a document and as a text *)

Section ManifestComplete.
Context `{RT : Runtime} `{JS : !EncodingJSON}.

Lemma manifest_block_occurs o t s k p :
  RangeOrder_ok o ->
  Toolkit_parents t !! k = Some p ->
  occurs_in (parent_text (parent_block o (k, p))) (GetToolkitDescription o t s).1.
Proof.
  intros Hok Hp. pose proof Hok as [Hparents _].
  rewrite GetToolkitDescription_render, render_manifest_text by done.
  apply occurs_in_app_r, occurs_in_app_l.
  apply (occurs_in_strcat _ (parent_text (parent_block o (k, p)))); [|apply occurs_in_refl].
  apply list_elem_of_fmap_2. unfold manifest_blocks.
  apply list_elem_of_fmap_2. rewrite (Hparents (Toolkit_parents t)).
  by apply elem_of_map_to_list.
Qed.

Lemma manifest_child_occurs o p k kc c :
  RangeOrder_ok o ->
  Parent_GetChildren p !! kc = Some c ->
  occurs_in (child_text (child_block (kc, c)))
            (strcat (child_text <$> pb_children (parent_block o (k, p)))).
Proof.
  intros [_ Hchildren] Hc.
  apply (occurs_in_strcat _ (child_text (child_block (kc, c)))); [|apply occurs_in_refl].
  apply list_elem_of_fmap_2. cbn. apply list_elem_of_fmap_2.
  rewrite (Hchildren p (Parent_GetChildren p)). by apply elem_of_map_to_list.
Qed.

Lemma GenerateSchema_required T `{ArgShape T} :
  exists sch,
    GenerateSchema T = any_Schema sch /\
    Schema_Required sch =
      field_json_name <$> filter (fun f => field_tag_required f = true) shape_fields.
Proof. eexists. split; [done|]. cbn. by rewrite filter_bool. Qed.

(** C9, as amended: for every registry whose parents, and whose parents'
    children, are registered under their own names, the manifest is the text
    of a document with exactly one block per registered parent, a parent
    without children included, and in the block of a parent exactly one
    entry per child registered with that parent; a child name is unique
    within the block of its parent only.  In the text, the block of a
    parent opens with the line [<parent name="N" description="D"></parent>]
    and closes with [</parent>], and has in between, for every child of
    that parent, the line [<child name="N" description="D"><input_schema>S
    </input_schema></child>], where S is the text of the child's schema; for
    a child built by [NewChild], S is the text of a schema that declares as
    required exactly the fields tagged required in the argument shape. *)
Theorem C9_manifest_complete o t s :
  RangeOrder_ok o ->
  Toolkit_keyed t ->
  (GetToolkitDescription o t s).1 =
    render_manifest (Toolkit_name t) (manifest_blocks o t) /\
  NoDup (pb_name <$> manifest_blocks o t) /\
  pb_name <$> manifest_blocks o t ≡ₚ registered_parents t /\
  (forall b, b ∈ manifest_blocks o t ->
     exists p, Toolkit_parents t !! pb_name b = Some p /\
       NoDup (cb_name <$> pb_children b) /\
       cb_name <$> pb_children b ≡ₚ registered_children p) /\
  (forall k p, Toolkit_parents t !! k = Some p ->
     exists body,
       occurs_in ("<parent name=" +:+ dq +:+ k +:+ dq +:+ " description=" +:+ dq
                    +:+ Parent_GetDescription p +:+ dq +:+ "></parent>" +:+ nl
                    +:+ body +:+ "</parent>" +:+ nl)
                 (GetToolkitDescription o t s).1 /\
       forall kc c, Parent_GetChildren p !! kc = Some c ->
         occurs_in ("<child name=" +:+ dq +:+ kc +:+ dq +:+ " description=" +:+ dq
                      +:+ Child_GetDescription c +:+ dq +:+ "><input_schema>"
                      +:+ schema_text (Child_GetInputSchema c)
                      +:+ "</input_schema></child>" +:+ nl)
                   body /\
         forall T (shape : ArgShape T) n d
                (h : context_Context -> T -> M (any * option error)),
           c = NewChild n d h ->
           exists sch,
             schema_text (Child_GetInputSchema c) = schema_text (any_Schema sch) /\
             Schema_Required sch =
               field_json_name <$>
                 filter (fun f => field_tag_required f = true) shape_fields).
Proof.
  intros Hok Hkeyed. pose proof Hok as [Hparents Hchildren].
  assert (pb_name <$> manifest_blocks o t = (range_parents o (Toolkit_parents t)).*1)
    as Hnames.
  { rewrite manifest_parent_names.
    apply (keyed_names Parent_GetName (Toolkit_parents t)); [|done].
    intros k p Hp. by destruct (Hkeyed k p Hp). }
  split; [by apply GetToolkitDescription_render|].
  split; [|split; [|split]].
  - rewrite Hnames, (Hparents (Toolkit_parents t)). apply NoDup_fst_map_to_list.
  - rewrite Hnames. unfold registered_parents. by rewrite (Hparents (Toolkit_parents t)).
  - intros b Hb. unfold manifest_blocks in Hb.
    apply list_elem_of_fmap in Hb as ([k p] & -> & Hin).
    rewrite (Hparents (Toolkit_parents t)) in Hin. apply elem_of_map_to_list in Hin.
    destruct (Hkeyed k p Hin) as [Hname Hpkeyed].
    exists p. cbn [pb_name parent_block snd]. rewrite Hname. split; [done|].
    assert (cb_name <$> pb_children (parent_block o (k, p)) =
            (range_children o p (Parent_GetChildren p)).*1) as Hcnames.
    { rewrite parent_block_child_names.
      by apply (keyed_names Child_GetName (Parent_GetChildren p)). }
    split.
    + rewrite Hcnames, (Hchildren p (Parent_GetChildren p)). apply NoDup_fst_map_to_list.
    + rewrite Hcnames. unfold registered_children.
      by rewrite (Hchildren p (Parent_GetChildren p)).
  - intros k p Hp. destruct (Hkeyed k p Hp) as [Hname Hpkeyed].
    exists (strcat (child_text <$> pb_children (parent_block o (k, p)))).
    split.
    + pose proof (manifest_block_occurs o t s k p Hok Hp) as Hblock.
      unfold parent_text, parent_line in Hblock. cbn [pb_name pb_description
        parent_block snd] in Hblock. rewrite Hname in Hblock.
      destruct Hblock as (pre & post & Htext).
      exists pre, (note_line +:+ post). rewrite Htext.
      by rewrite !append_assoc.
    + intros kc c Hc. split.
      * pose proof (manifest_child_occurs o p k kc c Hok Hc) as Hline.
        assert (child_text (child_block (kc, c)) =
                child_line kc (Child_GetDescription c)
                           (schema_text (Child_GetInputSchema c))) as Htext.
        { unfold child_text, child_block. cbn. by rewrite (Hpkeyed kc c Hc). }
        rewrite Htext in Hline. exact Hline.
      * intros T shape n d h ->.
        destruct (GenerateSchema_required T) as (sch & Hsch & Hreq).
        exists sch. cbn [Child_GetInputSchema NewChild]. by rewrite Hsch.
Qed.

End ManifestComplete.

Section InstancesManifest.
#[local] Existing Instance demo_Runtime.
#[local] Existing Instance demo_JSON.
#[local] Existing Instance testArgs_shape.

Lemma demo_parent_holding_keyed name cname :
  Parent_keyed (demo_parent_holding name {[ cname := demo_plain_child cname ]}).
Proof.
  intros k c Hk. cbn in Hk. apply lookup_singleton_Some in Hk as [<- <-]. done.
Qed.

Lemma demo_toolkit_shared_keyed : Toolkit_keyed demo_toolkit_shared.
Proof.
  apply New_keyed. intros p Hp. rewrite !elem_of_cons, elem_of_nil in Hp.
  destruct Hp as [Hp|[Hp|[]]]; injection Hp as ->; apply demo_parent_holding_keyed.
Qed.

(** Two parents that each register a child named [c]: the name is
    registered with both, and the manifest has it in two entries, one in
    the block of each parent. *)
Lemma C9_counterexample :
  RangeOrder_ok demo_order_1 /\
  Toolkit_keyed demo_toolkit_shared /\
  (registered_children <$> (map_to_list (Toolkit_parents demo_toolkit_shared)).*2)
    = [["c"]; ["c"]] /\
  (fun b => cb_name <$> pb_children b) <$> manifest_blocks demo_order_1 demo_toolkit_shared
    = [["c"]; ["c"]] /\
  count_occurrences ("<child name=" +:+ dq +:+ "c" +:+ dq)
    (GetToolkitDescription demo_order_1 demo_toolkit_shared demo_s0).1 = 2.
Proof.
  split; [exact demo_order_1_ok|].
  split; [exact demo_toolkit_shared_keyed|].
  repeat split; vm_compute; reflexivity.
Qed.

Lemma C9_witness :
  RangeOrder_ok demo_order_1 /\
  Toolkit_keyed demo_toolkit /\
  NoDup (pb_name <$> manifest_blocks demo_order_1 demo_toolkit) /\
  pb_name <$> manifest_blocks demo_order_1 demo_toolkit ≡ₚ registered_parents demo_toolkit.
Proof.
  split; [apply demo_order_1_ok|].
  split; [apply demo_toolkit_keyed|].
  destruct (C9_manifest_complete demo_order_1 demo_toolkit demo_s0
              demo_order_1_ok demo_toolkit_keyed) as (_ & Hnodup & Hperm & _).
  split; [exact Hnodup | exact Hperm].
Defined.

End InstancesManifest.
